(** * AVGJ Studios: the generation request/response orchestration layer

    A shallow embedding of [services/geminiService.ts] (the client gateway,
    the image fan-out and the video job poller) and of the generation
    handler of [components/Generator.tsx], followed by the properties the
    specification states about them.

    Conventions of the embedding.
    - A JavaScript string is a [string] whose characters are code units in
      the range 0..255.
    - An optional property ([x?: T], or a value that may be [undefined]) is
      an [option].
    - A JavaScript number that holds a count is a [Z].
    - An awaited promise is a [Completion]: it returned a value, it threw,
      or it never settles.
    - Every call that leaves the process is recorded as an [Event], in the
      order in which the code issues it. *)

From Stdlib Require Import ZArith Strings.String Strings.Ascii.
From stdpp Require Import base list strings.

(** ** JavaScript primitives used by the sources *)

Module Js.

(** Truthiness of a string, of an optional string and of an optional
    boolean, as used by [||], [&&], [!] and [if]. *)
Definition truthy_string (s : string) : bool :=
  match s with
  | EmptyString => false
  | String _ _ => true
  end.

Definition truthy (o : option string) : bool :=
  match o with
  | Some s => truthy_string s
  | None => false
  end.

Definition truthy_bool (o : option bool) : bool :=
  match o with
  | Some b => b
  | None => false
  end.

(** [a || b] on optional strings with a string default. *)
Definition or_else (o : option string) (d : string) : string :=
  match o with
  | Some s => if truthy_string s then s else d
  | None => d
  end.

(** The double quote character, for the string templates. *)
Definition dq : string := String (ascii_of_nat 34) EmptyString.

(** *** [String.prototype.includes] *)

Fixpoint starts_with (p s : string) : bool :=
  match p with
  | EmptyString => true
  | String a p' =>
      match s with
      | EmptyString => false
      | String b s' => if Ascii.eqb a b then starts_with p' s' else false
      end
  end.

Fixpoint includes (s p : string) : bool :=
  if starts_with p s then true
  else match s with
       | EmptyString => false
       | String _ s' => includes s' p
       end.

(** *** [String.prototype.trim]

    White space and line terminators among the code units 0..255: TAB,
    LF, VT, FF, CR, SPACE and NBSP. *)
Definition is_white_space (c : ascii) : bool :=
  let n := nat_of_ascii c in
  Nat.eqb n 9 || Nat.eqb n 10 || Nat.eqb n 11 || Nat.eqb n 12
  || Nat.eqb n 13 || Nat.eqb n 32 || Nat.eqb n 160.

Fixpoint trim_start (s : string) : string :=
  match s with
  | EmptyString => EmptyString
  | String c s' => if is_white_space c then trim_start s' else s
  end.

(** Drops the trailing white space: a character is kept when it is not
    white space or when something is kept after it. *)
Fixpoint trim_end (s : string) : string :=
  match s with
  | EmptyString => EmptyString
  | String c s' =>
      match trim_end s' with
      | EmptyString => if is_white_space c then EmptyString
                       else String c EmptyString
      | t => String c t
      end
  end.

Definition trim (s : string) : string := trim_end (trim_start s).

(** *** Regular expressions

    The fragment of the regular expression language the sources use,
    with the backtracking semantics of [RegExp.prototype.exec]:
    alternatives are tried left to right, [*] is greedy and an iteration
    has to consume input. *)
Inductive regex : Type :=
| Bol                                   (* ^ *)
| Chr (c : ascii)                       (* a literal character *)
| Class (p : ascii -> bool)             (* [...] and . *)
| Seq (r1 r2 : regex)
| Alt (r1 r2 : regex)                   (* r1|r2 *)
| Star (r : regex)                      (* r* *)
| Group (n : nat) (r : regex).          (* the n-th capture group *)

Definition Plus (r : regex) : regex := Seq r (Star r).

Fixpoint Lit (s : string) : regex :=
  match s with
  | EmptyString => Star (Class (fun _ => false))
  | String c EmptyString => Chr c
  | String c s' => Seq (Chr c) (Lit s')
  end.

(** Captures: the text of each group that took part in the match. *)
Definition captures : Type := list (nat * string).

Fixpoint capture (n : nat) (cs : captures) : option string :=
  match cs with
  | [] => None
  | (m, s) :: cs' => if Nat.eqb n m then Some s else capture n cs'
  end.

Fixpoint take_string (n : nat) (s : string) : string :=
  match n, s with
  | S n', String c s' => String c (take_string n' s')
  | _, _ => EmptyString
  end.

(** [run r pos s cs k]: match [r] at offset [pos] of the subject, where
    [s] is what remains of the subject from [pos] on, then continue with
    [k]; [None] makes the matcher backtrack. *)
Fixpoint run {R : Type} (r : regex) (pos : nat) (s : string) (cs : captures)
    (k : nat -> string -> captures -> option R) : option R :=
  match r with
  | Bol => if Nat.eqb pos 0 then k pos s cs else None
  | Chr c =>
      match s with
      | String b s' => if Ascii.eqb c b then k (S pos) s' cs else None
      | EmptyString => None
      end
  | Class p =>
      match s with
      | String b s' => if p b then k (S pos) s' cs else None
      | EmptyString => None
      end
  | Seq r1 r2 =>
      run r1 pos s cs (fun pos1 s1 cs1 => run r2 pos1 s1 cs1 k)
  | Alt r1 r2 =>
      match run r1 pos s cs k with
      | Some x => Some x
      | None => run r2 pos s cs k
      end
  | Star r1 =>
      (fix iterate (fuel : nat) (pos0 : nat) (s0 : string) (cs0 : captures)
         : option R :=
         match fuel with
         | O => k pos0 s0 cs0
         | S fuel' =>
             match run r1 pos0 s0 cs0
                     (fun pos1 s1 cs1 =>
                        if Nat.eqb pos1 pos0 then None
                        else iterate fuel' pos1 s1 cs1) with
             | Some x => Some x
             | None => k pos0 s0 cs0
             end
         end) (String.length s) pos s cs
  | Group n r1 =>
      run r1 pos s cs
        (fun pos1 s1 cs1 => k pos1 s1 ((n, take_string (pos1 - pos) s) :: cs1))
  end.

(** The result of a successful match: what precedes the match, the match
    itself, what follows it, and the captures. *)
Record match_result : Type := MatchResult {
  before : string;
  matched : string;
  after : string;
  groups : captures
}.

(** [match_at r pre pos s]: the match of [r] that starts exactly at
    offset [pos], [pre] being the subject up to [pos]. *)
Definition match_at (r : regex) (pre : string) (pos : nat) (s : string)
    : option match_result :=
  run r pos s []
    (fun pos1 s1 cs1 =>
       Some (MatchResult pre (take_string (pos1 - pos) s) s1 cs1)).

(** [exec]: the leftmost match, trying every start offset in turn. *)
Fixpoint search (r : regex) (pre : string) (pos : nat) (s : string)
    : option match_result :=
  match match_at r pre pos s with
  | Some m => Some m
  | None =>
      match s with
      | EmptyString => None
      | String c s' => search r (pre +:+ String c EmptyString) (S pos) s'
      end
  end.

Definition exec (r : regex) (s : string) : option match_result :=
  search r EmptyString 0 s.

(** [s.replace(r, by)] for a regular expression without the [g] flag and
    a replacement without [$] patterns. *)
Definition replace (s : string) (r : regex) (by_ : string) : string :=
  match exec r s with
  | Some m => before m +:+ by_ +:+ after m
  | None => s
  end.

(** [s.match(r)?.[n]]. *)
Definition match_group (s : string) (r : regex) (n : nat) : option string :=
  match exec r s with
  | Some m => if Nat.eqb n 0 then Some (matched m) else capture n (groups m)
  | None => None
  end.

(** Character classes. *)
Definition in_range (lo hi : nat) (c : ascii) : bool :=
  let n := nat_of_ascii c in Nat.leb lo n && Nat.leb n hi.

Definition alnum (c : ascii) : bool :=
  in_range 97 122 c || in_range 65 90 c || in_range 48 57 c.

(** [.] matches everything but the line terminators LF and CR. *)
Definition dot (c : ascii) : bool :=
  negb (Nat.eqb (nat_of_ascii c) 10 || Nat.eqb (nat_of_ascii c) 13).

End Js.


(** ** services/geminiService.ts *)

Module GeminiService.
Import Js.

(** *** Errors and promises *)

(** A thrown value: an [Error] object with its [name] and [message] (the
    handler reads [message] of whatever was thrown, so it may be absent). *)
Record JsError : Type := mkError {
  name : string;
  message : option string
}.

(** [new Error(msg)]. *)
Definition new_Error (msg : string) : JsError :=
  {| name := "Error"; message := Some msg |}.

(** The error [Array(n)] throws when [n] is not an array length. *)
Definition new_RangeError (msg : string) : JsError :=
  {| name := "RangeError"; message := Some msg |}.

(** What awaiting a promise gives. *)
Inductive Completion (A : Type) : Type :=
| Returned (a : A)
| Thrown (e : JsError)
| Pending.
Arguments Returned {A} a.
Arguments Thrown {A} e.
Arguments Pending {A}.

(** *** The data of the remote generation API *)

(** Inline binary data of a content part. *)
Record Blob : Type := mkBlob {
  data : option string;
  mimeType : option string
}.

Record Part : Type := mkPart {
  text : option string;
  inlineData : option Blob
}.

Record Content : Type := mkContent {
  parts : option (list Part)
}.

Record Candidate : Type := mkCandidate {
  content : option Content
}.

(** [response_text] is the [text] accessor of the response. *)
Record GenerateContentResponse : Type := mkResponse {
  candidates : option (list Candidate);
  response_text : option string
}.

Inductive ContentUnion : Type :=
| TextContent (s : string)                (* contents: instructions *)
| PartsContent (ps : list Part).          (* contents: { parts } *)

(** The [imageConfig] object: [imageSize] is a property only when the code
    assigns it. *)
Record ImageConfig : Type := mkImageConfig {
  cfg_aspectRatio : string;
  cfg_imageSize : option string
}.

Record GenerateContentParameters : Type := mkContentParameters {
  model : string;
  contents : ContentUnion;
  config : option ImageConfig              (* config: { imageConfig } *)
}.

Record ImageGenerationOptions : Type := mkOptions {
  aspectRatio : option string;
  resolution : option string;
  numberOfImages : option Z
}.

Record VideoConfig : Type := mkVideoConfig {
  numberOfVideos : Z;
  video_resolution : string;
  video_aspectRatio : string
}.

Record Image : Type := mkImage {
  imageBytes : string;
  image_mimeType : string
}.

Record GenerateVideosParameters : Type := mkVideosParameters {
  video_model : string;
  video_prompt : string;
  video_config : VideoConfig;
  image : option Image
}.

Record Video : Type := mkVideo {
  uri : option string
}.

Record GeneratedVideo : Type := mkGeneratedVideo {
  video : option Video
}.

Record GenerateVideosResponse : Type := mkVideosResponse {
  generatedVideos : option (list GeneratedVideo)
}.

(** The operation handle of a video job. *)
Record GenerateVideosOperation : Type := mkOperation {
  operation_name : string;
  done : option bool;
  response : option GenerateVideosResponse
}.

(** The body of a downloaded resource, and the response of [fetch]. *)
Record MediaBlob : Type := mkMediaBlob {
  bytes : string
}.

Record FetchResponse : Type := mkFetchResponse {
  ok : bool;
  blob : Completion MediaBlob
}.

(** *** Calls that leave the process *)

Inductive Event : Type :=
| GenerateContent (p : GenerateContentParameters)
| GenerateVideos (p : GenerateVideosParameters)
| Sleep (ms : Z)                           (* setTimeout(resolve, ms) *)
| GetVideosOperation (operation : GenerateVideosOperation)
| Fetch (url : string).

(** The world outside the service. [generateContent i p] is the outcome of
    the [i]-th call (counting from 0) made on a client, with parameters
    [p]; [completion_order] is the order in which the network completes
    the calls of a fan-out, by index of issue; [getVideosOperation i op]
    is the outcome of the [i]-th status request. [API_KEY] is
    [process.env.API_KEY]. *)
Record Remote : Type := mkRemote {
  API_KEY : option string;
  generateContent :
    nat -> GenerateContentParameters -> Completion GenerateContentResponse;
  completion_order : list nat;
  generateVideos :
    GenerateVideosParameters -> Completion GenerateVideosOperation;
  getVideosOperation :
    nat -> GenerateVideosOperation -> Completion GenerateVideosOperation;
  fetch : string -> Completion FetchResponse;
  createObjectURL : MediaBlob -> string
}.

(** *** [Array(count)] and [Promise.all] *)

(** [Array(count).fill(null)]: [count] has to be an array length. *)
Definition Array_fill_null (count : Z) : JsError + list unit :=
  if ((0 <=? count) && (count <? 2 ^ 32))%Z
  then inr (replicate (Z.to_nat count) tt)
  else inl (new_RangeError "Invalid array length").

(** The values of the promises, once every slot is filled. *)
Fixpoint all_values {A : Type} (values : list (option A)) : option (list A) :=
  match values with
  | [] => Some []
  | Some a :: values' =>
      match all_values values' with
      | Some l => Some (a :: l)
      | None => None
      end
  | None :: _ => None
  end.

(** The promises complete in the order [order]; a value is stored at the
    index of its promise, the first rejection rejects the whole. *)
Fixpoint settle {A : Type} (promises : list (Completion A))
    (order : list nat) (values : list (option A)) : Completion (list A) :=
  match order with
  | [] =>
      match all_values values with
      | Some l => Returned l
      | None => Pending
      end
  | i :: order' =>
      match promises !! i with
      | Some (Returned a) => settle promises order' (<[i := Some a]> values)
      | Some (Thrown e) => Thrown e
      | Some Pending | None => settle promises order' values
      end
  end.

Definition Promise_all {A : Type} (promises : list (Completion A))
    (order : list nat) : Completion (list A) :=
  settle promises order (replicate (length promises) None).

(** *** enhancePrompt *)

Inductive PromptType : Type := image_type | video_type.

Definition unlines (ls : list string) : string :=
  String.concat (String (ascii_of_nat 10) EmptyString) ls.

Definition image_instructions (originalPrompt : string) : string :=
  unlines [
    "You are an expert Director of Photography (DP) creating a shot list for a high-budget commercial. ";
    "      Rewrite the following prompt to be a highly detailed, photorealistic image description. ";
    "      ";
    "      CRITICAL: You MUST include specific technical details to achieve a "
      +:+ dq +:+ "film look" +:+ dq +:+ ", such as:";
    "      - Camera Bodies: e.g., Arri Alexa LF, RED V-RAPTOR, Sony Venice.";
    "      - Lenses: e.g., Panavision C-Series Anamorphic, Canon K35, 85mm Prime.";
    "      - Filters/Effects: e.g., Tiffen Black Pro-Mist 1/4, Cinebloom, Halation, Film Grain.";
    "      - Lighting: e.g., Volumetric fog, Rembrandt lighting, Golden Hour, Chiaroscuro.";
    "      ";
    "      Keep it under 70 words. Focus purely on the visual aesthetic and composition.";
    "      ";
    "      Original prompt: " +:+ dq +:+ originalPrompt +:+ dq ].

Definition video_instructions (originalPrompt : string) : string :=
  unlines [
    "You are an expert Film Director and Cinematographer. ";
    "      Rewrite the following prompt to be a detailed scene description for an AI Video Generator (Veo).";
    "      ";
    "      CRITICAL: Unlike an image, a video prompt MUST describe MOTION.";
    "      1. CAMERA MOVEMENT: Explicitly describe the camera move (e.g., Slow Dolly In, Truck Left, Low Angle Tracking Shot, Aerial Drone Flyover, Handheld chaos).";
    "      2. SUBJECT ACTION: Describe exactly how the subject moves (e.g., turning head to camera, running towards lens, rain falling).";
    "      3. LOOK: Include cinematic lens details (e.g., Anamorphic flare, Shallow depth of field) but prioritize motion.";
    "      ";
    "      Keep it under 70 words.";
    "      ";
    "      Original prompt: " +:+ dq +:+ originalPrompt +:+ dq ].

(** The parameters of the text-generation call; [type] defaults to
    ['image'] when the caller leaves it out. *)
Definition enhance_request (originalPrompt : string)
    (type : option PromptType) : GenerateContentParameters :=
  let instructions :=
    match default image_type type with
    | image_type => image_instructions originalPrompt
    | video_type => video_instructions originalPrompt
    end in
  {| model := "gemini-2.5-flash";
     contents := TextContent instructions;
     config := None |}.

Definition enhancePrompt (remote : Remote) (originalPrompt : string)
    (type : option PromptType) : list Event * Completion string :=
  let request := enhance_request originalPrompt type in
  ([GenerateContent request],
   match generateContent remote 0 request with
   | Returned response =>
       Returned (or_else (trim <$> response_text response) originalPrompt)
   | Thrown e => Thrown e
   | Pending => Pending
   end).

(** *** The image fan-out *)

(** [options?.resolution === '2K' || options?.resolution === '4K']. *)
Definition isHighQuality (options : option ImageGenerationOptions) : bool :=
  match options ≫= resolution with
  | Some r => String.eqb r "2K" || String.eqb r "4K"
  | None => false
  end.

(** [isHighQuality ? 'gemini-3-pro-image-preview' : 'gemini-2.5-flash-image']. *)
Definition select_model (options : option ImageGenerationOptions) : string :=
  if isHighQuality options then "gemini-3-pro-image-preview"
  else "gemini-2.5-flash-image".

(** [options?.numberOfImages || 1]. *)
Definition count (options : option ImageGenerationOptions) : Z :=
  match options ≫= numberOfImages with
  | Some n => if (n =? 0)%Z then 1%Z else n
  | None => 1%Z
  end.

(** The [imageConfig] object after the conditional assignment of
    [imageSize]. *)
Definition build_imageConfig (options : option ImageGenerationOptions)
    : ImageConfig :=
  {| cfg_aspectRatio := or_else (options ≫= aspectRatio) "1:1";
     cfg_imageSize :=
       if isHighQuality options && truthy (options ≫= resolution)
       then options ≫= resolution
       else None |}.

Definition refine_prompt (prompt : string) : string :=
  prompt +:+ " . Do not generate a grid or collage. Generate a single high-quality image.".

(** The inner loop over the parts of a response: the data of the first
    part with [part.inlineData && part.inlineData.data]. *)
Fixpoint first_inline_data (ps : list Part) : option string :=
  match ps with
  | [] => None
  | part :: ps' =>
      match inlineData part with
      | Some b =>
          if truthy (data b) then data b else first_inline_data ps'
      | None => first_inline_data ps'
      end
  end.

(** [response.candidates?.[0]?.content?.parts]. *)
Definition first_candidate_parts (response : GenerateContentResponse)
    : option (list Part) :=
  match candidates response with
  | Some (candidate :: _) =>
      match content candidate with
      | Some c => parts c
      | None => None
      end
  | Some [] | None => None
  end.

Definition image_url (d : string) : string := "data:image/png;base64," +:+ d.

(** One round of the outer loop: push at most one URL. *)
Definition push_image_url (imageUrls : list string)
    (response : GenerateContentResponse) : list string :=
  match first_candidate_parts response with
  | Some ps =>
      match first_inline_data ps with
      | Some d => (imageUrls ++ [image_url d])%list
      | None => imageUrls
      end
  | None => imageUrls
  end.

(** From the issue of the calls on: join them, reduce the responses,
    fail on an empty list. The text is the same in both operations. *)
Definition fan_out (remote : Remote) (request : GenerateContentParameters)
    (slots : list unit) : list Event * Completion (list string) :=
  let promises := imap (fun i _ => generateContent remote i request) slots in
  let issued := (fun _ => GenerateContent request) <$> slots in
  match Promise_all promises (completion_order remote) with
  | Returned responses =>
      let imageUrls := fold_left push_image_url responses [] in
      if Nat.eqb (length imageUrls) 0
      then (issued, Thrown (new_Error "No image data found in responses"))
      else (issued, Returned imageUrls)
  | Thrown e => (issued, Thrown e)
  | Pending => (issued, Pending)
  end.

Definition text_request (prompt : string)
    (options : option ImageGenerationOptions) : GenerateContentParameters :=
  {| model := select_model options;
     contents :=
       PartsContent [ {| text := Some (refine_prompt prompt);
                         inlineData := None |} ];
     config := Some (build_imageConfig options) |}.

Definition generateImageFromText (remote : Remote) (prompt : string)
    (options : option ImageGenerationOptions)
    : list Event * Completion (list string) :=
  match Array_fill_null (count options) with
  | inl e => ([], Thrown e)
  | inr slots => fan_out remote (text_request prompt options) slots
  end.

(** [/^data:image\/(png|jpeg|jpg|webp);base64,/] *)
Definition data_uri_prefix : regex :=
  Seq Bol
    (Seq (Lit "data:image/")
       (Seq (Group 1 (Alt (Lit "png")
                        (Alt (Lit "jpeg") (Alt (Lit "jpg") (Lit "webp")))))
          (Lit ";base64,"))).

(** The class [[a-zA-Z0-9-.+]]. *)
Definition subtype_char (c : ascii) : bool :=
  alnum c || Ascii.eqb c "-" || Ascii.eqb c "." || Ascii.eqb c "+".

(** [/data:([a-zA-Z0-9]+\/[a-zA-Z0-9-.+]+).*,.*/] *)
Definition data_uri_mime : regex :=
  Seq (Lit "data:")
    (Seq (Group 1 (Seq (Plus (Class alnum))
                     (Seq (Chr "/") (Plus (Class subtype_char)))))
       (Seq (Star (Class dot)) (Seq (Chr ",") (Star (Class dot))))).

Definition cleanBase64 (img : string) : string :=
  replace img data_uri_prefix EmptyString.

Definition mimeType_of (img : string) : string :=
  or_else (match_group img data_uri_mime 1) "image/png".

(** The part pushed for one reference image. *)
Definition inline_part (img : string) : Part :=
  {| text := None;
     inlineData := Some {| data := Some (cleanBase64 img);
                           mimeType := Some (mimeType_of img) |} |}.

(** The [parts] array: one push per reference image, then the text. *)
Definition build_parts (referenceImages : list string) (prompt : string)
    : list Part :=
  (fold_left (fun ps img => ps ++ [inline_part img]) referenceImages []
     ++ [ {| text := Some (refine_prompt prompt); inlineData := None |} ])%list.

Definition image_request (referenceImages : list string) (prompt : string)
    (options : option ImageGenerationOptions) : GenerateContentParameters :=
  {| model := select_model options;
     contents := PartsContent (build_parts referenceImages prompt);
     config := Some (build_imageConfig options) |}.

Definition generateImageFromImage (remote : Remote)
    (referenceImages : list string) (prompt : string)
    (options : option ImageGenerationOptions)
    : list Event * Completion (list string) :=
  match Array_fill_null (count options) with
  | inl e => ([], Thrown e)
  | inr slots =>
      fan_out remote (image_request referenceImages prompt options) slots
  end.

(** *** The video job poller *)

Definition video_payload (prompt : string) (inputImage : option string)
    : GenerateVideosParameters :=
  {| video_model := "veo-3.1-fast-generate-preview";
     video_prompt := prompt;
     video_config := {| numberOfVideos := 1;
                        video_resolution := "720p";
                        video_aspectRatio := "16:9" |};
     image :=
       match inputImage with
       | Some img =>
           if truthy_string img
           then Some {| imageBytes := cleanBase64 img;
                        image_mimeType := mimeType_of img |}
           else None
       | None => None
       end |}.

(** The polling loop, [fuel] bounding the number of rounds; [n] is the
    number of status requests made so far. The result is [None] when the
    loop is still running after [fuel] rounds. *)
Fixpoint poll (remote : Remote) (fuel : nat) (n : nat)
    (operation : GenerateVideosOperation)
    : list Event * option (Completion GenerateVideosOperation) :=
  if truthy_bool (done operation) then ([], Some (Returned operation))
  else
    match fuel with
    | O => ([], None)
    | S fuel' =>
        match getVideosOperation remote n operation with
        | Returned operation' =>
            let '(events, r) := poll remote fuel' (S n) operation' in
            (Sleep 5000 :: GetVideosOperation operation :: events, r)
        | Thrown e =>
            ([Sleep 5000; GetVideosOperation operation], Some (Thrown e))
        | Pending =>
            ([Sleep 5000; GetVideosOperation operation], Some Pending)
        end
    end.

(** [operation.response?.generatedVideos?.[0]?.video?.uri]. *)
Definition downloadLink (operation : GenerateVideosOperation)
    : option string :=
  match response operation with
  | Some r =>
      match generatedVideos r with
      | Some (generated :: _) =>
          match video generated with
          | Some v => uri v
          | None => None
          end
      | Some [] | None => None
      end
  | None => None
  end.

(** The text a template literal gives for [process.env.API_KEY]. *)
Definition env_text (o : option string) : string :=
  match o with
  | Some s => s
  | None => "undefined"
  end.

(** What follows the loop: the locator, the download, the object URL. *)
Definition download (remote : Remote) (operation : GenerateVideosOperation)
    : list Event * Completion string :=
  match downloadLink operation with
  | Some link =>
      if truthy_string link then
        let url := link +:+ "&key=" +:+ env_text (API_KEY remote) in
        match fetch remote url with
        | Returned videoResponse =>
            if ok videoResponse then
              match blob videoResponse with
              | Returned b => ([Fetch url], Returned (createObjectURL remote b))
              | Thrown e => ([Fetch url], Thrown e)
              | Pending => ([Fetch url], Pending)
              end
            else
              ([Fetch url],
               Thrown (new_Error "Failed to download generated video."))
        | Thrown e => ([Fetch url], Thrown e)
        | Pending => ([Fetch url], Pending)
        end
      else ([], Thrown (new_Error "Video generation failed or no URI returned."))
  | None => ([], Thrown (new_Error "Video generation failed or no URI returned."))
  end.

Definition generateVideo (remote : Remote) (fuel : nat) (prompt : string)
    (inputImage : option string)
    : list Event * option (Completion string) :=
  let payload := video_payload prompt inputImage in
  match generateVideos remote payload with
  | Returned operation =>
      match poll remote fuel 0 operation with
      | (polled, Some (Returned operation')) =>
          let '(fetched, r) := download remote operation' in
          ((GenerateVideos payload :: polled ++ fetched)%list, Some r)
      | (polled, Some (Thrown e)) =>
          (GenerateVideos payload :: polled, Some (Thrown e))
      | (polled, Some Pending) =>
          (GenerateVideos payload :: polled, Some Pending)
      | (polled, None) => (GenerateVideos payload :: polled, None)
      end
  | Thrown e => ([GenerateVideos payload], Some (Thrown e))
  | Pending => ([GenerateVideos payload], Some Pending)
  end.

End GeminiService.

(** ** components/Generator.tsx: the generation handler *)

Module Generator.
Import Js GeminiService.

(** Modelled from the spec: the enumeration [GenerationType] of
    [types.ts], with the three kinds of request the specification lists
    and the component uses. *)
Inductive GenerationType : Type :=
| TEXT_TO_IMAGE
| IMAGE_TO_IMAGE
| TEXT_TO_VIDEO.

Definition GenerationType_eqb (a b : GenerationType) : bool :=
  match a, b with
  | TEXT_TO_IMAGE, TEXT_TO_IMAGE
  | IMAGE_TO_IMAGE, IMAGE_TO_IMAGE
  | TEXT_TO_VIDEO, TEXT_TO_VIDEO => true
  | _, _ => false
  end.

(** The state of the component the handler reads and writes. *)
Record State : Type := mkState {
  activeTab : GenerationType;
  prompt : string;
  isGenerating : bool;
  resultUrls : list string;
  selectedPreviewIndex : nat;
  error : option string;
  aspectRatio : string;
  resolution : string;
  numberOfImages : Z;
  referenceImages : list string;
  hasPaidKey : bool
}.

Definition setIsGenerating (b : bool) (st : State) : State :=
  mkState (activeTab st) (prompt st) b (resultUrls st)
    (selectedPreviewIndex st) (error st) (aspectRatio st) (resolution st)
    (numberOfImages st) (referenceImages st) (hasPaidKey st).

Definition setResultUrls (urls : list string) (st : State) : State :=
  mkState (activeTab st) (prompt st) (isGenerating st) urls
    (selectedPreviewIndex st) (error st) (aspectRatio st) (resolution st)
    (numberOfImages st) (referenceImages st) (hasPaidKey st).

Definition setSelectedPreviewIndex (i : nat) (st : State) : State :=
  mkState (activeTab st) (prompt st) (isGenerating st) (resultUrls st)
    i (error st) (aspectRatio st) (resolution st)
    (numberOfImages st) (referenceImages st) (hasPaidKey st).

Definition setError (e : option string) (st : State) : State :=
  mkState (activeTab st) (prompt st) (isGenerating st) (resultUrls st)
    (selectedPreviewIndex st) e (aspectRatio st) (resolution st)
    (numberOfImages st) (referenceImages st) (hasPaidKey st).

Definition setHasPaidKey (b : bool) (st : State) : State :=
  mkState (activeTab st) (prompt st) (isGenerating st) (resultUrls st)
    (selectedPreviewIndex st) (error st) (aspectRatio st) (resolution st)
    (numberOfImages st) (referenceImages st) b.

(** The service operations the component imports, each giving the calls
    it issued and its completion. *)
Record Services : Type := mkServices {
  svc_generateImageFromText :
    string -> option ImageGenerationOptions
    -> list Event * Completion (list string);
  svc_generateImageFromImage :
    list string -> string -> option ImageGenerationOptions
    -> list Event * Completion (list string);
  svc_generateVideo :
    string -> option string -> list Event * Completion string
}.

(** [activeTab === TEXT_TO_VIDEO || resolution === '2K' ||
    resolution === '4K']. *)
Definition needsPaidKey (st : State) : bool :=
  GenerationType_eqb (activeTab st) TEXT_TO_VIDEO
  || String.eqb (resolution st) "2K" || String.eqb (resolution st) "4K".

(** The condition of the final key check before execution. *)
Definition gate_blocks (st : State) : bool :=
  needsPaidKey st && negb (hasPaidKey st).

Definition options_of (st : State) : option ImageGenerationOptions :=
  Some {| GeminiService.aspectRatio := Some (aspectRatio st);
          GeminiService.resolution := Some (resolution st);
          GeminiService.numberOfImages := Some (numberOfImages st) |}.

(** The body of the [try] block up to [setResultUrls]. *)
Definition dispatch (svc : Services) (st : State)
    : list Event * Completion (list string) :=
  match activeTab st with
  | TEXT_TO_IMAGE =>
      svc_generateImageFromText svc (prompt st) (options_of st)
  | IMAGE_TO_IMAGE =>
      if Nat.eqb (length (referenceImages st)) 0
      then ([], Thrown (new_Error "At least one reference image is required"))
      else svc_generateImageFromImage svc (referenceImages st) (prompt st)
             (options_of st)
  | TEXT_TO_VIDEO =>
      let seedImage := head (referenceImages st) in
      match svc_generateVideo svc (prompt st) seedImage with
      | (events, Returned url) => (events, Returned [url])
      | (events, Thrown e) => (events, Thrown e)
      | (events, Pending) => (events, Pending)
      end
  end.

(** [err.message && err.message.includes("Requested entity was not
    found")]. *)
Definition is_entity_not_found (err : JsError) : bool :=
  match message err with
  | Some m => truthy_string m && includes m "Requested entity was not found"
  | None => false
  end.

(** The [catch] block. *)
Definition on_error (err : JsError) (st : State) : State :=
  let st1 := setError (Some (or_else (message err) "Generation failed")) st in
  if is_entity_not_found err then setHasPaidKey false st1 else st1.

(** [handleGenerate]: the state the component is left in and the calls
    issued. When the awaited operation never settles, neither [catch]
    nor [finally] runs. *)
Definition handleGenerate (svc : Services) (st : State)
    : State * list Event :=
  if negb (truthy_string (prompt st)) then (st, [])
  else
    let st1 :=
      setSelectedPreviewIndex 0
        (setResultUrls [] (setError None (setIsGenerating true st))) in
    if gate_blocks st then (setIsGenerating false st1, [])
    else
      match dispatch svc st with
      | (events, Returned urls) =>
          (setIsGenerating false (setResultUrls urls st1), events)
      | (events, Thrown err) =>
          (setIsGenerating false (on_error err st1), events)
      | (events, Pending) => (st1, events)
      end.

(** The services of [geminiService.ts] over a remote, the poller given
    [fuel] rounds; a poll that outlasts them is still pending. *)
Definition services_of (remote : Remote) (fuel : nat) : Services :=
  {| svc_generateImageFromText := generateImageFromText remote;
     svc_generateImageFromImage := generateImageFromImage remote;
     svc_generateVideo := fun p img =>
       match generateVideo remote fuel p img with
       | (events, Some r) => (events, r)
       | (events, None) => (events, Pending)
       end |}.

End Generator.

(** ** The vocabulary of the properties *)

Module Props.
Import Js GeminiService.

(** A part that carries inline binary data. *)
Definition inline_binary_part (p : Part) : Prop :=
  ∃ b d, inlineData p = Some b ∧ data b = Some d ∧ d ≠ EmptyString.

(** The first candidate of the response contains an inline binary part. *)
Definition has_inline_binary (r : GenerateContentResponse) : Prop :=
  ∃ ps p, first_candidate_parts r = Some ps ∧ p ∈ ps ∧ inline_binary_part p.

(** The URL the reduction makes of a response, if it makes one. *)
Definition response_url (r : GenerateContentResponse) : option string :=
  match first_candidate_parts r with
  | Some ps => image_url <$> first_inline_data ps
  | None => None
  end.

(** The calls of a fan-out of [n] calls with parameters [request] all
    return, call [i] returning [responses !! i]. *)
Definition all_return (remote : Remote) (request : GenerateContentParameters)
    (n : nat) (responses : list GenerateContentResponse) : Prop :=
  length responses = n ∧
  ∀ i r, responses !! i = Some r →
         generateContent remote i request = Returned r.

(** The slots of a join filled so far hold the value of their own
    promise. *)
Definition consistent {A : Type} (rs : list A) (values : list (option A))
    : Prop :=
  length values = length rs ∧
  ∀ i a, values !! i = Some (Some a) → rs !! i = Some a.

(** Every call of a fan-out of [n] calls completes. *)
Definition all_complete (remote : Remote) (n : nat) : Prop :=
  ∀ i, i < n → i ∈ completion_order remote.

(** The high-fidelity and the fast model. *)
Definition high_fidelity_model : string := "gemini-3-pro-image-preview".
Definition fast_model : string := "gemini-2.5-flash-image".

(** The model the specification assigns to a resolution: the
    high-fidelity model for 2K and 4K, the fast model for anything else,
    an absent resolution included. *)
Definition model_for (resolution : option string) : string :=
  match resolution with
  | Some "2K" | Some "4K" => high_fidelity_model
  | _ => fast_model
  end.

(** The model named in a generation call. *)
Definition model_of (e : Event) : option string :=
  match e with
  | GenerateContent p => Some (model p)
  | _ => None
  end.

Definition is_fetch (e : Event) : bool :=
  match e with
  | Fetch _ => true
  | _ => false
  end.

(** A delay of five seconds. *)
Definition is_delay (e : Event) : bool :=
  match e with
  | Sleep ms => (ms =? 5000)%Z
  | _ => false
  end.

Definition is_status_request (e : Event) : bool :=
  match e with
  | GetVideosOperation _ => true
  | _ => false
  end.

(** The job that starts as [start] reports [final] at the [k]-th status
    request, none of the requests before having found it done; [n] status
    requests were made before [start] was received. *)
Fixpoint reports (remote : Remote) (n k : nat)
    (start final : GenerateVideosOperation) : Prop :=
  match k with
  | O => start = final
  | S k' =>
      truthy_bool (done start) = false
      ∧ ∃ next, getVideosOperation remote n start = Returned next
                ∧ reports remote (S n) k' next final
  end.

(** *** Stub remotes *)

Definition png_part (d : string) : Part :=
  {| text := None;
     inlineData := Some {| data := Some d; mimeType := Some "image/png" |} |}.

Definition text_part (t : string) : Part :=
  {| text := Some t; inlineData := None |}.

Definition response_with (ps : list Part) : GenerateContentResponse :=
  {| candidates := Some [ {| content := Some {| parts := Some ps |} |} ];
     response_text := None |}.

Definition text_response (t : option string) : GenerateContentResponse :=
  {| candidates := None; response_text := t |}.

(** A remote whose [i]-th generation call has the [i]-th outcome of
    [outcomes], completing in the order [order]; there is no video
    service behind it. *)
Definition image_stub (outcomes : list (Completion GenerateContentResponse))
    (order : list nat) : Remote :=
  {| API_KEY := Some "k";
     generateContent := fun i _ => default Pending (outcomes !! i);
     completion_order := order;
     generateVideos := fun _ => Pending;
     getVideosOperation := fun _ _ => Pending;
     fetch := fun _ => Pending;
     createObjectURL := fun b => "blob:" +:+ bytes b |}.

Definition operation_of (d : bool) (link : option string)
    : GenerateVideosOperation :=
  {| operation_name := "operations/1";
     done := Some d;
     response :=
       if d then Some {| generatedVideos :=
                           Some [ {| video := Some {| uri := link |} |} ] |}
       else None |}.

(** A remote whose video job reports the operations [first], then
    [later] one by one at each status request, and whose downloads
    succeed. *)
Definition video_stub (first : GenerateVideosOperation)
    (later : list GenerateVideosOperation) : Remote :=
  {| API_KEY := Some "k";
     generateContent := fun _ _ => Pending;
     completion_order := [];
     generateVideos := fun _ => Returned first;
     getVideosOperation := fun i _ =>
       match later !! i with
       | Some operation => Returned operation
       | None => Pending
       end;
     fetch := fun url =>
       Returned {| ok := true; blob := Returned {| bytes := url |} |};
     createObjectURL := fun b => "blob:" +:+ bytes b |}.

(** A remote whose every generation call throws [e]. *)
Definition failing_stub (e : JsError) : Remote :=
  {| API_KEY := Some "k";
     generateContent := fun _ _ => Thrown e;
     completion_order := [0; 1; 2; 3];
     generateVideos := fun _ => Thrown e;
     getVideosOperation := fun _ _ => Thrown e;
     fetch := fun _ => Thrown e;
     createObjectURL := fun b => "blob:" +:+ bytes b |}.

End Props.

(** ** services/geminiService.ts: the key-selection host *)

Module KeySelection.
Import Js GeminiService.

(** [window.aistudio], when the host defines it: each capability is a
    property that may be absent; when present it is what awaiting its call
    gives. *)
Record AiStudio : Type := mkAiStudio {
  hasSelectedApiKey : option (Completion bool);
  openSelectKey : option (Completion unit)
}.

(** Calls made to the host. *)
Inductive HostCall : Type :=
| HasSelectedApiKey
| OpenSelectKey.

Definition checkApiKeySelection (aistudio : option AiStudio)
    : list HostCall * Completion bool :=
  match aistudio with
  | Some host =>
      match hasSelectedApiKey host with
      | Some answer => ([HasSelectedApiKey], answer)
      | None => ([], Returned true)
      end
  | None => ([], Returned true)
  end.

Definition openApiKeySelection (aistudio : option AiStudio)
    : list HostCall * Completion unit :=
  match aistudio with
  | Some host =>
      match openSelectKey host with
      | Some opened => ([OpenSelectKey], opened)
      | None => ([], Returned tt)
      end
  | None => ([], Returned tt)
  end.

End KeySelection.

(** ** components/Generator.tsx: the other handlers *)

Module Studio.
Import Js GeminiService KeySelection Generator.

(** [AssetType] and the data [onSaveAsset] receives
    ([Omit<Asset, 'id' | 'createdAt'>]). *)
Inductive AssetType : Type := image_asset | video_asset.

Record AssetData : Type := mkAssetData {
  data_projectId : string;
  data_sceneId : string;
  data_type : AssetType;
  data_url : string;
  data_prompt : string
}.

(** The state of the component beside the one the generation handler
    uses. *)
Record Component : Type := mkComponent {
  generation : State;
  isEnhancing : bool;
  isJsonMode : bool;
  selectedProjectId : string;
  selectedSceneId : string
}.

Definition with_generation (st : State) (c : Component) : Component :=
  mkComponent st (isEnhancing c) (isJsonMode c) (selectedProjectId c)
    (selectedSceneId c).

Definition setIsEnhancing (b : bool) (c : Component) : Component :=
  mkComponent (generation c) b (isJsonMode c) (selectedProjectId c)
    (selectedSceneId c).

Definition setPrompt (p : string) (st : State) : State :=
  mkState (activeTab st) p (isGenerating st) (resultUrls st)
    (selectedPreviewIndex st) (error st) (Generator.aspectRatio st)
    (Generator.resolution st) (Generator.numberOfImages st)
    (referenceImages st) (hasPaidKey st).

Definition setReferenceImages (imgs : list string) (st : State) : State :=
  mkState (activeTab st) (prompt st) (isGenerating st) (resultUrls st)
    (selectedPreviewIndex st) (error st) (Generator.aspectRatio st)
    (Generator.resolution st) (Generator.numberOfImages st)
    imgs (hasPaidKey st).



(** [checkKeyRequirements]: a rejected or pending check leaves the state as
    it is. *)
Definition checkKeyRequirements (aistudio : option AiStudio) (st : State)
    : State * list HostCall :=
  if needsPaidKey st then
    match checkApiKeySelection aistudio with
    | (calls, Returned hasKey) => (setHasPaidKey hasKey st, calls)
    | (calls, _) => (st, calls)
    end
  else (setHasPaidKey true st, []).

Definition handleSelectKey (aistudio : option AiStudio) (st : State)
    : State * list HostCall :=
  match openApiKeySelection aistudio with
  | (calls, Returned _) => (setHasPaidKey true st, calls)
  | (calls, _) => (st, calls)
  end.

(** [referenceImages.includes(assetUrl)]. *)
Definition includes_url (imgs : list string) (assetUrl : string) : bool :=
  existsb (String.eqb assetUrl) imgs.

Definition toggleSceneAsset (assetUrl : string) (st : State) : State :=
  if includes_url (referenceImages st) assetUrl then
    setReferenceImages
      (List.filter (fun url => negb (String.eqb url assetUrl))
         (referenceImages st)) st
  else if Nat.leb 5 (length (referenceImages st)) then st
  else setReferenceImages (referenceImages st ++ [assetUrl]) st.

(** The click on a scene asset: [!isDisabled && toggleSceneAsset(url)]. *)
Definition click_scene_asset (assetUrl : string) (st : State) : State :=
  let isSelected := includes_url (referenceImages st) assetUrl in
  let maxLimit :=
    if GenerationType_eqb (activeTab st) TEXT_TO_VIDEO then 1 else 5 in
  let isDisabled :=
    negb isSelected && Nat.leb maxLimit (length (referenceImages st)) in
  if isDisabled then st else toggleSceneAsset assetUrl st.

(** [prev.filter((_, i) => i !== index)], [i] counting from [from]. *)
Fixpoint filter_other_index {A : Type} (index from : nat) (l : list A)
    : list A :=
  match l with
  | [] => []
  | x :: l' =>
      if Nat.eqb from index then filter_other_index index (S from) l'
      else x :: filter_other_index index (S from) l'
  end.

Definition removeReferenceImage (index : nat) (st : State) : State :=
  setReferenceImages (filter_other_index index 0 (referenceImages st)) st.

(** [handleEnhancePrompt], over the imported [enhancePrompt]; the error
    caught is only logged. *)
Definition handleEnhancePrompt
    (enhance : string -> option PromptType -> list Event * Completion string)
    (c : Component) : Component * list Event :=
  let st := generation c in
  if negb (truthy_string (prompt st)) then (c, [])
  else
    let c1 := setIsEnhancing true c in
    let enhancementType :=
      if GenerationType_eqb (activeTab st) TEXT_TO_VIDEO then video_type
      else image_type in
    match enhance (prompt st) (Some enhancementType) with
    | (events, Returned improved) =>
        (setIsEnhancing false (with_generation (setPrompt improved st) c1),
         events)
    | (events, Thrown _) => (setIsEnhancing false c1, events)
    | (events, Pending) => (c1, events)
    end.

Definition asset_type_of (tab : GenerationType) : AssetType :=
  if GenerationType_eqb tab TEXT_TO_VIDEO then video_asset else image_asset.

(** [handleSaveAll]: the component afterwards and the calls of
    [onSaveAsset], in order. *)
Definition handleSaveAll (c : Component) : Component * list AssetData :=
  let st := generation c in
  if Nat.eqb (length (resultUrls st)) 0
     || negb (truthy_string (selectedProjectId c))
     || negb (truthy_string (selectedSceneId c))
  then (c, [])
  else
    (with_generation (setPrompt EmptyString (setResultUrls [] st)) c,
     (fun url =>
        {| data_projectId := selectedProjectId c;
           data_sceneId := selectedSceneId c;
           data_type := asset_type_of (activeTab st);
           data_url := url;
           data_prompt := prompt st |}) <$> resultUrls st).

End Studio.

(** ** App.tsx: the asset store and the navigation *)

Module App.
Import Js GeminiService Generator Studio.

Record Project : Type := mkProject {
  project_id : string;
  project_name : string;
  project_description : string;
  project_createdAt : Z
}.

Record Scene : Type := mkScene {
  scene_id : string;
  scene_projectId : string;
  scene_name : string;
  scene_description : string;
  sequenceOrder : Z
}.

(** The optional [width] and [height] are never written. *)
Record Asset : Type := mkAsset {
  asset_id : string;
  asset_sceneId : string;
  asset_projectId : string;
  asset_type : AssetType;
  asset_url : string;
  asset_prompt : string;
  asset_createdAt : Z
}.

Record Data : Type := mkData {
  projects : list Project;
  scenes : list Scene;
  assets : list Asset
}.

Inductive ViewState : Type :=
| DASHBOARD
| PROJECT_DETAILS (projectId : string)
| SCENE_DETAILS (projectId sceneId : string)
| GENERATOR (projectId sceneId image : option string)
    (mode : option GenerationType) (prompt : option string).

(** The state of [App]. *)
Record AppState : Type := mkApp {
  data : Data;
  viewState : ViewState;
  isProjectModalOpen : bool;
  isSceneModalOpen : bool;
  newItemName : string;
  selectedAsset : option Asset
}.

Definition setData (d : Data) (a : AppState) : AppState :=
  mkApp d (viewState a) (isProjectModalOpen a) (isSceneModalOpen a)
    (newItemName a) (selectedAsset a).


Definition setIsSceneModalOpen (b : bool) (a : AppState) : AppState :=
  mkApp (data a) (viewState a) (isProjectModalOpen a) b (newItemName a)
    (selectedAsset a).

Definition setSelectedAsset (s : option Asset) (a : AppState) : AppState :=
  mkApp (data a) (viewState a) (isProjectModalOpen a) (isSceneModalOpen a)
    (newItemName a) s.

(** [data.scenes.filter(s => s.projectId === projectId)]. *)
Definition scenes_of (projectId : string) (l : list Scene) : list Scene :=
  List.filter (fun s => String.eqb (scene_projectId s) projectId) l.

(** [id] is what [generateId()] returns. *)
Definition handleCreateScene (id : string) (a : AppState) : AppState :=
  if negb (truthy_string (trim (newItemName a))) then a
  else
    match viewState a with
    | PROJECT_DETAILS projectId =>
        let d := data a in
        let newScene :=
          {| scene_id := id;
             scene_projectId := projectId;
             scene_name := newItemName a;
             scene_description := "Description of the scene...";
             sequenceOrder :=
               (Z.of_nat (length (scenes_of projectId (scenes d))) + 1)%Z |} in
        setIsSceneModalOpen false
          (setData (mkData (projects d) (scenes d ++ [newScene]) (assets d)) a)
    | _ => a
    end.

(** [id] and [now] are what [generateId()] and [Date.now()] return. *)
Definition saveGeneratedAsset (id : string) (now : Z) (assetData : AssetData)
    (a : AppState) : AppState :=
  let newAsset :=
    {| asset_id := id;
       asset_createdAt := now;
       asset_projectId := data_projectId assetData;
       asset_sceneId := data_sceneId assetData;
       asset_type := data_type assetData;
       asset_url := data_url assetData;
       asset_prompt := data_prompt assetData |} in
  let d := data a in
  setData (mkData (projects d) (scenes d) (assets d ++ [newAsset])) a.

(** [confirmed] is the answer of [window.confirm]. *)
Definition handleDeleteAsset (confirmed : bool) (assetId : string)
    (a : AppState) : AppState :=
  if negb confirmed then a
  else
    let d := data a in
    let a1 :=
      setData
        (mkData (projects d) (scenes d)
           (List.filter (fun x => negb (String.eqb (asset_id x) assetId))
              (assets d))) a in
    match selectedAsset a with
    | Some s =>
        if String.eqb (asset_id s) assetId then setSelectedAsset None a1
        else a1
    | None => a1
    end.



(** [handleSaveAll] with [saveGeneratedAsset] as its [onSaveAsset]:
    [stamp i] is what [generateId()] and [Date.now()] return in the [i]-th
    call, [n] calls having been made before. *)
Fixpoint save_each (stamp : nat -> string * Z) (n : nat)
    (saved : list AssetData) (a : AppState) : AppState :=
  match saved with
  | [] => a
  | assetData :: saved' =>
      save_each stamp (S n) saved'
        (saveGeneratedAsset (fst (stamp n)) (snd (stamp n)) assetData a)
  end.

End App.

(** ** Further vocabulary *)

Module Vocabulary.
Import Js GeminiService.

(** A continuation of the matcher that hands the captures it is given to
    its result. *)
Definition keeps_captures
    (k : nat -> string -> captures -> option match_result) : Prop :=
  ∀ pos s cs m, k pos s cs = Some m → groups m = cs.

(** The image subtypes the stripping pattern lists. *)
Definition listed_subtypes : list string := ["png"; "jpeg"; "jpg"; "webp"].

(** The base64 data URI of an image of subtype [sub]. *)
Definition image_data_uri (sub payload : string) : string :=
  "data:image/" +:+ sub +:+ ";base64," +:+ payload.

(** The characters of [sub] are those of the subtype class of the mime
    pattern. *)
Definition subtype_chars (sub : string) : bool :=
  forallb subtype_char (list_ascii_of_string sub).

(** The scenes of every project carry the sequence orders 1, 2, ... in the
    order of the list. *)
Definition well_numbered (l : list App.Scene) : Prop :=
  ∀ projectId,
    App.sequenceOrder <$> App.scenes_of projectId l
    = (fun i => (Z.of_nat i + 1)%Z)
        <$> seq 0 (length (App.scenes_of projectId l)).

(** The asset [saveGeneratedAsset] makes of the data it is given. *)
Definition asset_of (id : string) (now : Z) (d : Studio.AssetData)
    : App.Asset :=
  {| App.asset_id := id;
     App.asset_createdAt := now;
     App.asset_projectId := Studio.data_projectId d;
     App.asset_sceneId := Studio.data_sceneId d;
     App.asset_type := Studio.data_type d;
     App.asset_url := Studio.data_url d;
     App.asset_prompt := Studio.data_prompt d |}.

End Vocabulary.

Import Js GeminiService Props.

(** ** Properties of [Promise.all] and of the reduction *)

Section Join.
Context {A : Type}.
Implicit Types (values : list (option A)) (rs : list A) (order : list nat).

Lemma all_values_full rs values :
  consistent rs values →
  (∀ i, i < length rs → ∃ a, values !! i = Some (Some a)) →
  all_values values = Some rs.
Proof.
  revert rs. induction values as [|v values IH]; intros rs [Hlen Hval] Hfull.
  - destruct rs; [done | discriminate].
  - destruct rs as [|r rs]; [discriminate|].
    destruct (Hfull 0) as [a Ha]; [simpl; lia|].
    simpl in Ha. injection Ha as ->.
    pose proof (Hval 0 a eq_refl) as Hr. simpl in Hr. injection Hr as ->.
    simpl. rewrite (IH rs); [done | |].
    + split; [simpl in Hlen; lia|]. intros i b Hb. exact (Hval (S i) b Hb).
    + intros i Hi. apply (Hfull (S i)). simpl. lia.
Qed.

Lemma consistent_insert rs values i a :
  consistent rs values → rs !! i = Some a →
  consistent rs (<[i := Some a]> values).
Proof.
  intros [Hlen Hval] Hi. split; [by rewrite length_insert|].
  intros j b Hj. destruct (decide (i = j)) as [->|Hne].
  - rewrite list_lookup_insert_eq in Hj; [congruence|].
    rewrite Hlen. by eapply lookup_lt_Some.
  - rewrite list_lookup_insert_ne in Hj by done. by apply Hval.
Qed.

(** When every promise returns and every one of them completes, the join
    returns the values by index of issue, whatever the order of
    completion. *)
Lemma settle_all_returned rs order values :
  consistent rs values →
  (∀ i, i < length rs → i ∈ order ∨ ∃ a, values !! i = Some (Some a)) →
  settle (Returned <$> rs) order values = Returned rs.
Proof.
  revert values. induction order as [|i order IH]; intros values Hc Hcov.
  - simpl. rewrite (all_values_full rs values); [done | done |].
    intros i Hi. destruct (Hcov i Hi) as [Hin | H]; [|done].
    by apply elem_of_nil in Hin.
  - simpl. rewrite list_lookup_fmap.
    destruct (rs !! i) as [a|] eqn:Hi; simpl.
    + apply IH; [by apply consistent_insert|].
      intros j Hj. destruct (decide (j = i)) as [->|Hne].
      * right. exists a. apply list_lookup_insert_eq.
        destruct Hc as [-> _]. by eapply lookup_lt_Some.
      * destruct (Hcov j Hj) as [Hin | [b Hb]].
        -- left. apply elem_of_cons in Hin as [?|?]; [done | done].
        -- right. exists b. by rewrite list_lookup_insert_ne.
    + apply IH; [done|]. intros j Hj.
      destruct (Hcov j Hj) as [Hin | H]; [|by right].
      apply elem_of_cons in Hin as [->|?]; [|by left].
      apply lookup_lt_is_Some_2 in Hj. rewrite Hi in Hj. by destruct Hj.
Qed.

Lemma Promise_all_returned rs order :
  (∀ i, i < length rs → i ∈ order) →
  Promise_all (Returned <$> rs) order = Returned rs.
Proof.
  intros Hcov. unfold Promise_all. apply settle_all_returned.
  - split; [by rewrite length_replicate, length_fmap|].
    intros i a Hi. apply lookup_replicate in Hi as [? _]. discriminate.
  - intros i Hi. left. by apply Hcov.
Qed.

End Join.

Section Reduction.
Implicit Types (r : GenerateContentResponse) (ps : list Part).

Lemma first_inline_data_Some ps :
  (∃ p, p ∈ ps ∧ inline_binary_part p) ↔ is_Some (first_inline_data ps).
Proof.
  induction ps as [|q ps IH]; simpl.
  - split; [intros (p & Hp & _); by apply elem_of_nil in Hp|].
    intros [? ?]; discriminate.
  - destruct (inlineData q) as [b|] eqn:Hq.
    + destruct (data b) as [d|] eqn:Hd; simpl.
      * destruct d as [|c d]; simpl.
        -- rewrite <- IH. split.
           ++ intros (p & Hp & Hbin). apply elem_of_cons in Hp as [->|Hp].
              ** destruct Hbin as (b' & d' & Hb' & Hd' & Hne). congruence.
              ** eauto.
           ++ intros (p & Hp & Hbin). exists p. split; [by right | done].
        -- split; [eauto|]. intros _. exists q. split; [by left|].
           exists b, (String c d). done.
      * rewrite <- IH. split.
        -- intros (p & Hp & Hbin). apply elem_of_cons in Hp as [->|Hp].
           ++ destruct Hbin as (b' & d' & Hb' & Hd' & Hne). congruence.
           ++ eauto.
        -- intros (p & Hp & Hbin). exists p. split; [by right | done].
    + rewrite <- IH. split.
      * intros (p & Hp & Hbin). apply elem_of_cons in Hp as [->|Hp].
        -- destruct Hbin as (b' & d' & Hb' & _). congruence.
        -- eauto.
      * intros (p & Hp & Hbin). exists p. split; [by right | done].
Qed.

Lemma has_inline_binary_url r :
  has_inline_binary r ↔ is_Some (response_url r).
Proof.
  unfold has_inline_binary, response_url. split.
  - intros (ps & p & -> & Hp & Hbin).
    apply fmap_is_Some, first_inline_data_Some. eauto.
  - destruct (first_candidate_parts r) as [ps|]; [|intros [? ?]; discriminate].
    intros H. apply fmap_is_Some, first_inline_data_Some in H as (p & ? & ?).
    eauto.
Qed.

Lemma push_image_url_spec urls r :
  push_image_url urls r = urls ++ option_list (response_url r).
Proof.
  unfold push_image_url, response_url.
  destruct (first_candidate_parts r) as [ps|]; simpl; [|by rewrite app_nil_r].
  destruct (first_inline_data ps); simpl; [done | by rewrite app_nil_r].
Qed.

(** The outer loop keeps the URLs in the order of the responses. *)
Lemma fold_push_image_url rs urls :
  fold_left push_image_url rs urls = urls ++ omap response_url rs.
Proof.
  revert urls. induction rs as [|r rs IH]; intros urls; simpl.
  - by rewrite app_nil_r.
  - rewrite IH, push_image_url_spec, <- app_assoc. f_equal.
    by destruct (response_url r).
Qed.

Lemma omap_all_Some rs :
  Forall has_inline_binary rs →
  length (omap response_url rs) = length rs ∧
  ∀ i, omap response_url rs !! i = rs !! i ≫= response_url.
Proof.
  induction 1 as [|r rs Hr _ [IHlen IH]]; [done|].
  apply has_inline_binary_url in Hr as [u Hu]. simpl. rewrite Hu. simpl.
  split; [by f_equal|]. intros [|i]; simpl; [by rewrite Hu | apply IH].
Qed.

Lemma omap_all_None rs :
  Forall (λ r, ¬ has_inline_binary r) rs → omap response_url rs = [].
Proof.
  induction 1 as [|r rs Hr _ IH]; [done|]. simpl.
  destruct (response_url r) eqn:Hu; [|done].
  exfalso. apply Hr, has_inline_binary_url. by rewrite Hu.
Qed.

End Reduction.

Section FanOut.
Variables (remote : Remote) (request : GenerateContentParameters).

Lemma issue_all_return n responses :
  all_return remote request n responses →
  imap (λ i _, generateContent remote i request) (replicate n tt)
  = Returned <$> responses.
Proof.
  intros [Hlen Hret]. apply list_eq. intros i.
  rewrite list_lookup_imap, list_lookup_fmap.
  destruct (responses !! i) as [r|] eqn:Hi; simpl.
  - rewrite (lookup_replicate_2 n tt i); [simpl; by rewrite (Hret i r)|].
    rewrite <- Hlen. by eapply lookup_lt_Some.
  - rewrite (proj1 (lookup_replicate_None n tt i)); [done|].
    rewrite <- Hlen. by apply lookup_ge_None.
Qed.

(** The fan-out issues [n] calls, and when they all return and complete
    it reduces their responses in the order of issue. *)
Lemma fan_out_all_return n responses :
  all_return remote request n responses →
  all_complete remote n →
  fan_out remote request (replicate n tt)
  = (replicate n (GenerateContent request),
     match omap response_url responses with
     | [] => Thrown (new_Error "No image data found in responses")
     | urls => Returned urls
     end).
Proof.
  intros Hret Hcomp. unfold fan_out.
  rewrite (issue_all_return n responses Hret), fmap_replicate.
  rewrite Promise_all_returned.
  - rewrite fold_push_image_url. simpl.
    by destruct (omap response_url responses).
  - intros i Hi. apply Hcomp. destruct Hret as [<- _]. done.
Qed.

Lemma fan_out_issues slots :
  (fan_out remote request slots).1 = (λ _, GenerateContent request) <$> slots.
Proof.
  unfold fan_out.
  by destruct (Promise_all _ _) as [rs| |];
    [destruct (Nat.eqb _ _)| |].
Qed.

End FanOut.

Section ImageOperations.
Variable remote : Remote.
Implicit Types (prompt : string) (referenceImages : list string)
  (options : option ImageGenerationOptions).

Lemma Array_fill_null_length c :
  (0 ≤ c < 2 ^ 32)%Z →
  Array_fill_null c = inr (replicate (Z.to_nat c) tt).
Proof.
  intros [H0 H1]. unfold Array_fill_null.
  apply Z.leb_le in H0. apply Z.ltb_lt in H1. by rewrite H0, H1.
Qed.

Lemma count_unset options :
  options ≫= numberOfImages = None ∨ options ≫= numberOfImages = Some 0%Z →
  count options = 1%Z.
Proof. unfold count. by intros [-> | ->]. Qed.

(** Both operations, once the requested number of calls is an array
    length, are the fan-out of that many calls. *)
Lemma generateImageFromText_fan_out prompt options :
  (0 ≤ count options < 2 ^ 32)%Z →
  generateImageFromText remote prompt options
  = fan_out remote (text_request prompt options)
      (replicate (Z.to_nat (count options)) tt).
Proof.
  intros H. unfold generateImageFromText.
  by rewrite (Array_fill_null_length _ H).
Qed.

Lemma generateImageFromImage_fan_out referenceImages prompt options :
  (0 ≤ count options < 2 ^ 32)%Z →
  generateImageFromImage remote referenceImages prompt options
  = fan_out remote (image_request referenceImages prompt options)
      (replicate (Z.to_nat (count options)) tt).
Proof.
  intros H. unfold generateImageFromImage.
  by rewrite (Array_fill_null_length _ H).
Qed.

Lemma fan_out_ordered request n responses :
  0 < n →
  all_return remote request n responses →
  Forall has_inline_binary responses →
  all_complete remote n →
  ∃ urls,
    (fan_out remote request (replicate n tt)).2 = Returned urls
    ∧ length urls = n
    ∧ ∀ i, urls !! i = responses !! i ≫= response_url.
Proof.
  intros Hn Hret Himg Hcomp.
  rewrite (fan_out_all_return remote request n responses Hret Hcomp).
  destruct (omap_all_Some responses Himg) as [Hlen Hnth].
  exists (omap response_url responses). simpl.
  destruct Hret as [Hl _]. rewrite Hlen, Hl. split; [|done].
  destruct (omap response_url responses); [simpl in Hlen; lia | done].
Qed.

Lemma fan_out_empty request n responses :
  all_return remote request n responses →
  Forall (λ r, ¬ has_inline_binary r) responses →
  all_complete remote n →
  (fan_out remote request (replicate n tt)).2
  = Thrown (new_Error "No image data found in responses").
Proof.
  intros Hret Himg Hcomp.
  rewrite (fan_out_all_return remote request n responses Hret Hcomp).
  by rewrite (omap_all_None responses Himg).
Qed.

End ImageOperations.

(** C1. For every count in 1..4, when each of the count calls issued by
    [generateImageFromText] (or by [generateImageFromImage]) returns a
    response whose first candidate contains an inline binary part, the
    operation returns exactly count URLs, and the i-th URL is the one made
    of the response of the i-th call issued, in whatever order the calls
    complete. *)
Theorem fan_out_returns_count_urls_in_submission_order
    (remote : Remote) (prompt : string) (referenceImages : list string)
    (options : option ImageGenerationOptions)
    (from_text from_image : list GenerateContentResponse) :
  (1 ≤ count options ≤ 4)%Z →
  all_complete remote (Z.to_nat (count options)) →
  all_return remote (text_request prompt options)
    (Z.to_nat (count options)) from_text →
  Forall has_inline_binary from_text →
  all_return remote (image_request referenceImages prompt options)
    (Z.to_nat (count options)) from_image →
  Forall has_inline_binary from_image →
  (∃ urls,
     (generateImageFromText remote prompt options).2 = Returned urls
     ∧ length urls = Z.to_nat (count options)
     ∧ ∀ i, urls !! i = from_text !! i ≫= response_url)
  ∧ (∃ urls,
       (generateImageFromImage remote referenceImages prompt options).2
       = Returned urls
       ∧ length urls = Z.to_nat (count options)
       ∧ ∀ i, urls !! i = from_image !! i ≫= response_url).
Proof.
  intros Hc Hcomp Ht Hti Hi Hii.
  rewrite generateImageFromText_fan_out, generateImageFromImage_fan_out by lia.
  split; eapply fan_out_ordered; eauto; lia.
Qed.

Lemma fan_out_returns_count_urls_in_submission_order_witness :
  let remote :=
    image_stub [Returned (response_with [text_part "one"; png_part "AAAA"]);
                Returned (response_with [png_part "BBBB"; png_part "XXXX"]);
                Returned (response_with [png_part "CCCC"])] [2; 0; 1] in
  let options := Some (mkOptions None (Some "1K") (Some 3%Z)) in
  (generateImageFromText remote "a cat" options).2
  = Returned ["data:image/png;base64,AAAA"; "data:image/png;base64,BBBB";
              "data:image/png;base64,CCCC"]
  ∧ (generateImageFromImage remote ["data:image/png;base64,QUJD"] "a cat"
       options).2
    = Returned ["data:image/png;base64,AAAA"; "data:image/png;base64,BBBB";
                "data:image/png;base64,CCCC"].
Proof.
  intros remote options.
  set (rs := [response_with [text_part "one"; png_part "AAAA"];
              response_with [png_part "BBBB"; png_part "XXXX"];
              response_with [png_part "CCCC"]]).
  assert (Himg : Forall has_inline_binary rs).
  { repeat constructor; apply has_inline_binary_url; vm_compute; eauto. }
  assert (Hret : ∀ request, all_return remote request 3 rs).
  { intros request. split; [reflexivity|].
    intros [|[|[|i]]] r Hr; simpl in Hr; inversion Hr; reflexivity. }
  assert (Hcomp : all_complete remote 3).
  { intros [|[|[|i]]] Hi; simpl; [repeat constructor.. | lia]. }
  destruct (fan_out_returns_count_urls_in_submission_order remote "a cat"
              ["data:image/png;base64,QUJD"] options rs rs)
    as [(u1 & -> & Hl1 & Hn1) (u2 & -> & Hl2 & Hn2)];
    [vm_compute; split; discriminate | exact Hcomp | apply Hret | exact Himg
    | apply Hret | exact Himg |].
  assert (Hu : ∀ u : list string,
             length u = 3 → (∀ i, u !! i = rs !! i ≫= response_url) →
             u = ["data:image/png;base64,AAAA"; "data:image/png;base64,BBBB";
                  "data:image/png;base64,CCCC"]).
  { intros u Hl Hn. destruct u as [|a [|b [|c [|d u]]]]; try discriminate.
    pose proof (Hn 0) as H0. pose proof (Hn 1) as H1. pose proof (Hn 2) as H2.
    vm_compute in H0, H1, H2. congruence. }
  split; f_equal; by apply Hu.
Defined.

(** C2. For every count, when each of the count calls of the fan-out
    returns and no response contains an inline binary part in its first
    candidate, [generateImageFromText] and [generateImageFromImage] throw
    the error "No image data found in responses" and return no list. The
    count of calls is an array length. *)
Theorem fan_out_without_image_data_throws
    (remote : Remote) (prompt : string) (referenceImages : list string)
    (options : option ImageGenerationOptions)
    (from_text from_image : list GenerateContentResponse) :
  (0 ≤ count options < 2 ^ 32)%Z →
  all_complete remote (Z.to_nat (count options)) →
  all_return remote (text_request prompt options)
    (Z.to_nat (count options)) from_text →
  Forall (λ r, ¬ has_inline_binary r) from_text →
  all_return remote (image_request referenceImages prompt options)
    (Z.to_nat (count options)) from_image →
  Forall (λ r, ¬ has_inline_binary r) from_image →
  (generateImageFromText remote prompt options).2
  = Thrown (new_Error "No image data found in responses")
  ∧ (generateImageFromImage remote referenceImages prompt options).2
    = Thrown (new_Error "No image data found in responses").
Proof.
  intros Hc Hcomp Ht Hti Hi Hii.
  rewrite generateImageFromText_fan_out, generateImageFromImage_fan_out by done.
  split; eapply fan_out_empty; eauto.
Qed.

Lemma fan_out_without_image_data_throws_witness :
  let remote :=
    image_stub [Returned (response_with [text_part "sorry"]);
                Returned (response_with []);
                Returned (text_response (Some "no candidates"));
                Returned (response_with [mkPart None (Some (mkBlob None None))])]
      [3; 1; 0; 2] in
  let options := Some (mkOptions (Some "16:9") (Some "2K") (Some 4%Z)) in
  (generateImageFromText remote "a cat" options).2
  = Thrown (new_Error "No image data found in responses")
  ∧ (generateImageFromImage remote ["data:image/png;base64,QUJD"] "a cat"
       options).2
    = Thrown (new_Error "No image data found in responses").
Proof.
  intros remote options.
  set (rs := [response_with [text_part "sorry"]; response_with [];
              text_response (Some "no candidates");
              response_with [mkPart None (Some (mkBlob None None))]]).
  assert (Himg : Forall (λ r, ¬ has_inline_binary r) rs).
  { repeat constructor; intros H; apply has_inline_binary_url in H as [u Hu];
      vm_compute in Hu; discriminate. }
  assert (Hret : ∀ request, all_return remote request 4 rs).
  { intros request. split; [reflexivity|].
    intros [|[|[|[|i]]]] r Hr; simpl in Hr; inversion Hr; reflexivity. }
  assert (Hcomp : all_complete remote 4).
  { intros [|[|[|[|i]]]] Hi; simpl; [repeat constructor.. | lia]. }
  apply (fan_out_without_image_data_throws remote "a cat"
           ["data:image/png;base64,QUJD"] options rs rs);
    [vm_compute; split; [discriminate | reflexivity] | exact Hcomp | apply Hret
    | exact Himg | apply Hret | exact Himg].
Defined.

Section ModelSelection.
Implicit Types (options : option ImageGenerationOptions).

Lemma select_model_model_for options :
  select_model options = model_for (options ≫= resolution).
Proof.
  unfold select_model, isHighQuality, model_for.
  destruct (options ≫= resolution) as [r|]; [|done].
  destruct (String.eqb r "2K") eqn:H2.
  - apply String.eqb_eq in H2 as ->. done.
  - destruct (String.eqb r "4K") eqn:H4.
    + apply String.eqb_eq in H4 as ->. done.
    + apply String.eqb_neq in H2, H4. simpl.
      repeat (destruct r as [|[[] [] [] [] [] [] [] []] r];
              try done; try congruence).
Qed.

Lemma Forall_fmap_const {A B : Type} (P : B → Prop) (b : B) (l : list A) :
  P b → Forall P ((λ _, b) <$> l).
Proof. intros Hb. induction l; constructor; done. Qed.

Lemma issued_by_text remote prompt options :
  Forall (λ e, e = GenerateContent (text_request prompt options))
    (generateImageFromText remote prompt options).1.
Proof.
  unfold generateImageFromText.
  destruct (Array_fill_null (count options)) as [e|slots]; [by constructor|].
  rewrite fan_out_issues. by apply Forall_fmap_const.
Qed.

Lemma issued_by_image remote referenceImages prompt options :
  Forall (λ e, e = GenerateContent
                     (image_request referenceImages prompt options))
    (generateImageFromImage remote referenceImages prompt options).1.
Proof.
  unfold generateImageFromImage.
  destruct (Array_fill_null (count options)) as [e|slots]; [by constructor|].
  rewrite fan_out_issues. by apply Forall_fmap_const.
Qed.

End ModelSelection.

(** C7. The model of every generation call issued by the two image
    operations is the one the resolution alone determines: for every
    remote, prompt, list of reference images, aspect ratio and count, it is
    the high-fidelity model when the resolution is 2K or 4K and the fast
    model for any other resolution, an absent one included. *)
Theorem model_is_a_function_of_resolution
    (remote : Remote) (prompt : string) (referenceImages : list string)
    (options : option ImageGenerationOptions) :
  Forall (λ e, model_of e = Some (model_for (options ≫= resolution)))
    (generateImageFromText remote prompt options).1
  ∧ Forall (λ e, model_of e = Some (model_for (options ≫= resolution)))
      (generateImageFromImage remote referenceImages prompt options).1
  ∧ model_for (Some "2K") = "gemini-3-pro-image-preview"
  ∧ model_for (Some "4K") = "gemini-3-pro-image-preview"
  ∧ model_for None = "gemini-2.5-flash-image"
  ∧ ∀ r, r ≠ "2K" → r ≠ "4K" → model_for (Some r) = "gemini-2.5-flash-image".
Proof.
  repeat split; try reflexivity.
  - eapply Forall_impl; [apply issued_by_text|].
    intros e ->. simpl. by rewrite select_model_model_for.
  - eapply Forall_impl; [apply issued_by_image|].
    intros e ->. simpl. by rewrite select_model_model_for.
  - intros r H2 H4.
    pose proof (select_model_model_for (Some (mkOptions None (Some r) None)))
      as Hm.
    unfold select_model, isHighQuality in Hm. simpl in Hm.
    apply String.eqb_neq in H2, H4. by rewrite H2, H4 in Hm.
Qed.

Lemma model_is_a_function_of_resolution_witness :
  model_for (Some "1K") = "gemini-2.5-flash-image"
  ∧ Forall (λ e, model_of e = Some "gemini-3-pro-image-preview")
      (generateImageFromText (failing_stub (new_Error "503")) "a cat"
         (Some (mkOptions (Some "16:9") (Some "4K") (Some 2%Z)))).1.
Proof.
  destruct (model_is_a_function_of_resolution (failing_stub (new_Error "503"))
              "a cat" [] (Some (mkOptions (Some "16:9") (Some "4K") (Some 2%Z))))
    as (Htext & _ & _ & _ & _ & Hother).
  split; [apply Hother; discriminate | exact Htext].
Defined.

Section Defaults.
Implicit Types (options : option ImageGenerationOptions).

Lemma imageSize_iff options :
  is_Some (cfg_imageSize (build_imageConfig options))
  ↔ (options ≫= resolution = Some "2K" ∨ options ≫= resolution = Some "4K").
Proof.
  unfold build_imageConfig, isHighQuality. simpl.
  destruct (options ≫= resolution) as [r|]; simpl.
  - destruct (String.eqb r "2K") eqn:H2; simpl.
    + apply String.eqb_eq in H2 as ->. simpl. split; eauto.
    + destruct (String.eqb r "4K") eqn:H4; simpl.
      * apply String.eqb_eq in H4 as ->. simpl. split; eauto.
      * apply String.eqb_neq in H2, H4. split.
        -- intros [? ?]; discriminate.
        -- intros [?|?]; congruence.
  - split; [intros [? ?]; discriminate | intros [?|?]; discriminate].
Qed.

Lemma imageSize_is_resolution options size :
  cfg_imageSize (build_imageConfig options) = Some size →
  options ≫= resolution = Some size.
Proof.
  unfold build_imageConfig. simpl.
  by destruct (isHighQuality options && truthy (options ≫= resolution)).
Qed.

Lemma aspectRatio_default options :
  options ≫= aspectRatio = None →
  cfg_aspectRatio (build_imageConfig options) = "1:1".
Proof. unfold build_imageConfig. simpl. by intros ->. Qed.

Lemma fan_out_single remote request r :
  generateContent remote 0 request = Returned r →
  has_inline_binary r →
  0 ∈ completion_order remote →
  ∃ url, response_url r = Some url
         ∧ (fan_out remote request [tt]).2 = Returned [url].
Proof.
  intros Hr Himg Hcomp.
  destruct (fan_out_ordered remote request 1 [r]) as (urls & Hu & Hl & Hn).
  - lia.
  - split; [done|]. intros [|i] r' Hi; [|done]. by injection Hi as <-.
  - by constructor.
  - intros [|i] Hi; [done | lia].
  - apply has_inline_binary_url in Himg as [url Hurl]. exists url.
    split; [done|]. simpl in Hu. rewrite Hu. f_equal.
    destruct urls as [|u [|u' urls]]; try discriminate.
    pose proof (Hn 0) as H0. simpl in H0. congruence.
Qed.

End Defaults.

(** C10. When [options.numberOfImages] is absent or 0, both operations
    issue exactly one generation call, and when that call returns a
    response with an inline binary part the operation returns a list of one
    URL. The configuration sent has an [imageSize] exactly when the
    resolution is 2K or 4K (it is then the resolution), and its
    [aspectRatio] is "1:1" when none is supplied. *)
Theorem unset_count_issues_one_call
    (remote : Remote) (prompt : string) (referenceImages : list string)
    (options : option ImageGenerationOptions) :
  options ≫= numberOfImages = None ∨ options ≫= numberOfImages = Some 0%Z →
  let for_text := text_request prompt options in
  let for_image := image_request referenceImages prompt options in
  (generateImageFromText remote prompt options).1 = [GenerateContent for_text]
  ∧ (generateImageFromImage remote referenceImages prompt options).1
    = [GenerateContent for_image]
  ∧ (∀ r, generateContent remote 0 for_text = Returned r →
          has_inline_binary r → 0 ∈ completion_order remote →
          ∃ url, response_url r = Some url ∧
                 (generateImageFromText remote prompt options).2
                 = Returned [url])
  ∧ (∀ r, generateContent remote 0 for_image = Returned r →
          has_inline_binary r → 0 ∈ completion_order remote →
          ∃ url, response_url r = Some url ∧
                 (generateImageFromImage remote referenceImages prompt
                    options).2 = Returned [url])
  ∧ config for_text = Some (build_imageConfig options)
  ∧ config for_image = Some (build_imageConfig options)
  ∧ (is_Some (cfg_imageSize (build_imageConfig options))
     ↔ (options ≫= resolution = Some "2K" ∨ options ≫= resolution = Some "4K"))
  ∧ (∀ size, cfg_imageSize (build_imageConfig options) = Some size →
             options ≫= resolution = Some size)
  ∧ (options ≫= aspectRatio = None →
     cfg_aspectRatio (build_imageConfig options) = "1:1").
Proof.
  intros Hunset for_text for_image.
  pose proof (count_unset options Hunset) as Hc.
  assert (Hrange : (0 ≤ count options < 2 ^ 32)%Z) by (rewrite Hc; done).
  rewrite generateImageFromText_fan_out, generateImageFromImage_fan_out by done.
  rewrite Hc. change (replicate (Z.to_nat 1) tt) with [tt].
  rewrite !fan_out_issues.
  repeat split; try done.
  - intros r. apply fan_out_single.
  - intros r. apply fan_out_single.
  - apply imageSize_iff.
  - apply imageSize_iff.
  - apply imageSize_is_resolution.
  - apply aspectRatio_default.
Qed.

Lemma unset_count_issues_one_call_witness :
  let remote :=
    image_stub [Returned (response_with [png_part "AAAA"]);
                Returned (response_with [png_part "BBBB"])] [1; 0] in
  let options := Some (mkOptions None (Some "4K") (Some 0%Z)) in
  length (generateImageFromText remote "a cat" options).1 = 1
  ∧ length (generateImageFromImage remote ["data:image/png;base64,QUJD"]
              "a cat" options).1 = 1
  ∧ (generateImageFromText remote "a cat" options).2
    = Returned ["data:image/png;base64,AAAA"]
  ∧ cfg_imageSize (build_imageConfig options) = Some "4K"
  ∧ cfg_aspectRatio (build_imageConfig options) = "1:1".
Proof.
  intros remote options.
  destruct (unset_count_issues_one_call remote "a cat"
              ["data:image/png;base64,QUJD"] options)
    as (He1 & He2 & Hr1 & _ & _ & _ & Hsize & Hres & Haspect);
    [right; reflexivity|].
  rewrite He1, He2.
  split; [reflexivity|]. split; [reflexivity|]. split; [|split].
  - destruct (Hr1 (response_with [png_part "AAAA"])) as (url & Hurl & ->).
    + reflexivity.
    + apply has_inline_binary_url. vm_compute. eauto.
    + simpl. repeat constructor.
    + vm_compute in Hurl. congruence.
  - destruct (proj2 Hsize) as [size Hs]; [right; reflexivity|].
    rewrite Hs. f_equal. apply Hres in Hs. simpl in Hs. congruence.
  - apply Haspect. reflexivity.
Defined.

(** ** The prompt enhancer *)

(** C9, as stated, fails on a response whose text is white space only: the
    text is present, its trimmed form is the empty string, and the
    operation returns the original prompt. *)
Lemma enhancePrompt_blank_text_counterexample :
  let response := text_response (Some "   ") in
  let remote := image_stub [Returned response] [0] in
  generateContent remote 0 (enhance_request "a cat" (Some image_type))
  = Returned response
  ∧ response_text response = Some "   "
  ∧ (enhancePrompt remote "a cat" (Some image_type)).2 = Returned "a cat"
  ∧ (enhancePrompt remote "a cat" (Some image_type)).2
    ≠ Returned (trim "   ").
Proof. vm_compute. repeat split; discriminate. Qed.

(** C9, amended. For every prompt and mode, when the text-generation call
    returns, [enhancePrompt] returns the response text trimmed when that
    text is present and not white space only, and the original prompt
    verbatim when the response carries no text or only white space; it
    returns for every response, and what the call throws is thrown
    unchanged. *)
Theorem enhancePrompt_trimmed_text_or_original_prompt
    (remote : Remote) (originalPrompt : string) (type : option PromptType) :
  let outcome :=
    generateContent remote 0 (enhance_request originalPrompt type) in
  let result := (enhancePrompt remote originalPrompt type).2 in
  (∀ r t, outcome = Returned r → response_text r = Some t →
          trim t ≠ EmptyString → result = Returned (trim t))
  ∧ (∀ r t, outcome = Returned r → response_text r = Some t →
            trim t = EmptyString → result = Returned originalPrompt)
  ∧ (∀ r, outcome = Returned r → response_text r = None →
          result = Returned originalPrompt)
  ∧ (∀ r, outcome = Returned r → ∃ improved, result = Returned improved)
  ∧ (∀ e, outcome = Thrown e → result = Thrown e).
Proof.
  intros outcome result. subst outcome result. unfold enhancePrompt. simpl.
  repeat split.
  - intros r t -> Ht Hne. rewrite Ht. simpl. by destruct (trim t).
  - intros r t -> Ht He. rewrite Ht. simpl. by rewrite He.
  - intros r -> Ht. by rewrite Ht.
  - intros r ->. eauto.
  - by intros e ->.
Qed.

Lemma enhancePrompt_trimmed_text_or_original_prompt_witness :
  let remote :=
    image_stub [Returned (text_response (Some "  a tabby cat, 85mm Prime  "))]
      [0] in
  (enhancePrompt remote "a cat" (Some video_type)).2
  = Returned "a tabby cat, 85mm Prime"
  ∧ (enhancePrompt (failing_stub (new_Error "503")) "a cat" None).2
    = Thrown (new_Error "503").
Proof.
  intros remote. split.
  - destruct (enhancePrompt_trimmed_text_or_original_prompt remote "a cat"
                (Some video_type)) as (Htrim & _).
    apply (Htrim (text_response (Some "  a tabby cat, 85mm Prime  "))
             "  a tabby cat, 85mm Prime  "); [reflexivity | reflexivity |].
    vm_compute. discriminate.
  - destruct (enhancePrompt_trimmed_text_or_original_prompt
                (failing_stub (new_Error "503")) "a cat" None)
      as (_ & _ & _ & _ & Hthrow).
    apply Hthrow. reflexivity.
Defined.

(** ** The reference images of image-to-image *)

Section ReferenceImages.
Implicit Types (referenceImages : list string) (prompt payload : string).

Lemma fold_push_inline_part referenceImages (ps : list Part) :
  fold_left (λ ps img, ps ++ [inline_part img]) referenceImages ps
  = ps ++ (inline_part <$> referenceImages).
Proof.
  revert ps. induction referenceImages as [|img imgs IH]; intros ps; simpl.
  - by rewrite app_nil_r.
  - by rewrite IH, <- app_assoc.
Qed.

(** One binary part per reference image, in the order supplied, then the
    single text part. *)
Lemma build_parts_order referenceImages prompt :
  build_parts referenceImages prompt
  = (inline_part <$> referenceImages) ++ [text_part (refine_prompt prompt)].
Proof. unfold build_parts. by rewrite fold_push_inline_part. Qed.

(** The prefix is stripped for the four listed image types. *)
Lemma cleanBase64_listed payload :
  cleanBase64 ("data:image/png;base64," +:+ payload) = payload
  ∧ cleanBase64 ("data:image/jpeg;base64," +:+ payload) = payload
  ∧ cleanBase64 ("data:image/jpg;base64," +:+ payload) = payload
  ∧ cleanBase64 ("data:image/webp;base64," +:+ payload) = payload.
Proof. repeat split. Qed.

End ReferenceImages.

(** C3, at a GIF chosen as reference image: the binary part is tagged with
    the mime type recovered from the data URI, image/gif, but its data is
    the whole data URI, the prefix still in place. *)
Lemma gif_reference_image_keeps_its_prefix :
  contents (image_request ["data:image/png;base64,iVBORw0KGgo=";
                           "data:image/gif;base64,R0lGODlhAQABAAAAACw="]
              "a cat" None)
  = PartsContent
      [ {| text := None;
           inlineData := Some {| data := Some "iVBORw0KGgo=";
                                 mimeType := Some "image/png" |} |};
        {| text := None;
           inlineData :=
             Some {| data := Some "data:image/gif;base64,R0lGODlhAQABAAAAACw=";
                     mimeType := Some "image/gif" |} |};
        text_part (refine_prompt "a cat") ].
Proof. reflexivity. Qed.

(** ** The video job poller *)

Section Poller.
Variable remote : Remote.
Implicit Types (operation final : GenerateVideosOperation) (fuel n k : nat).

(** A job that reports done at the [k]-th status request leaves the loop
    after exactly [k] delayed status requests, given at least [k] rounds. *)
Lemma poll_reports k : ∀ n fuel operation final,
  reports remote n k operation final →
  truthy_bool (done final) = true →
  k ≤ fuel →
  ∃ polled,
    poll remote fuel n operation = (polled, Some (Returned final))
    ∧ Forall (λ e, is_fetch e = false) polled
    ∧ length (filter (λ e, is_status_request e = true) polled) = k
    ∧ length (filter (λ e, is_delay e = true) polled) = k.
Proof.
  induction k as [|k IH]; intros n fuel operation final Hrep Hdone Hfuel.
  - simpl in Hrep. subst final. exists [].
    destruct fuel; simpl; rewrite Hdone; done.
  - destruct Hrep as (Hnot & next & Hnext & Hrep).
    destruct fuel as [|fuel]; [lia|]. simpl. rewrite Hnot, Hnext.
    destruct (IH (S n) fuel next final Hrep Hdone) as (polled & -> & Hf & Hs & Hd);
      [lia|].
    eexists. split; [done|]. split; [by repeat constructor|].
    split.
    + rewrite filter_cons_False by (simpl; discriminate).
      rewrite filter_cons_True by done. simpl. by rewrite Hs.
    + rewrite filter_cons_True by done.
      rewrite filter_cons_False by discriminate. simpl. by rewrite Hd.
Qed.

Lemma download_without_locator final :
  truthy (downloadLink final) = false →
  download remote final
  = ([], Thrown (new_Error "Video generation failed or no URI returned.")).
Proof.
  unfold download. destruct (downloadLink final) as [link|]; [|done].
  simpl. by intros ->.
Qed.

Lemma download_with_locator final link :
  downloadLink final = Some link → link ≠ EmptyString →
  ∃ r, download remote final
       = ([Fetch (link +:+ "&key=" +:+ env_text (API_KEY remote))], r)
       ∧ ∀ videoResponse b,
           fetch remote (link +:+ "&key=" +:+ env_text (API_KEY remote))
           = Returned videoResponse →
           ok videoResponse = true → blob videoResponse = Returned b →
           r = Returned (createObjectURL remote b).
Proof.
  intros Hlink Hne. unfold download. rewrite Hlink.
  destruct link as [|c link]; [done|]. simpl.
  destruct (fetch remote _) as [videoResponse| |] eqn:Hfetch.
  - destruct (ok videoResponse) eqn:Hok.
    + destruct (blob videoResponse) as [b| |] eqn:Hblob; eexists;
        (split; [done|]); intros v b' Hv Hok' Hb; congruence.
    + eexists. split; [done|]. intros v b' Hv Hok' Hb. congruence.
  - eexists. split; [done|]. intros v b' Hv. discriminate.
  - eexists. split; [done|]. intros v b' Hv. discriminate.
Qed.

End Poller.

(** C5. When the submitted operation is not done, the first status request
    finds it not done and the second finds it done with a download locator,
    [generateVideo] makes exactly two status requests, each after a delay
    of five seconds, then one download request, at the locator of the
    completed operation with the access key appended; a download that
    succeeds gives the object URL of the downloaded bytes. *)
Theorem poller_makes_two_delayed_requests_then_downloads
    (remote : Remote) (prompt : string) (inputImage : option string)
    (submitted second third : GenerateVideosOperation) (link : string)
    (fuel : nat) :
  generateVideos remote (video_payload prompt inputImage) = Returned submitted →
  truthy_bool (done submitted) = false →
  getVideosOperation remote 0 submitted = Returned second →
  truthy_bool (done second) = false →
  getVideosOperation remote 1 second = Returned third →
  truthy_bool (done third) = true →
  downloadLink third = Some link →
  link ≠ EmptyString →
  2 ≤ fuel →
  ∃ r,
    generateVideo remote fuel prompt inputImage
    = ([GenerateVideos (video_payload prompt inputImage);
        Sleep 5000; GetVideosOperation submitted;
        Sleep 5000; GetVideosOperation second;
        Fetch (link +:+ "&key=" +:+ env_text (API_KEY remote))], Some r)
    ∧ ∀ videoResponse b,
        fetch remote (link +:+ "&key=" +:+ env_text (API_KEY remote))
        = Returned videoResponse →
        ok videoResponse = true → blob videoResponse = Returned b →
        r = Returned (createObjectURL remote b).
Proof.
  intros Hsub H0 Hsecond H1 Hthird H2 Hlink Hne Hfuel.
  destruct (download_with_locator remote third link Hlink Hne) as (r & Hd & Hr).
  exists r. split; [|exact Hr].
  unfold generateVideo. rewrite Hsub.
  destruct fuel as [|[|fuel]]; [lia | lia|].
  simpl. rewrite H0, Hsecond. simpl. rewrite H1, Hthird.
  destruct fuel; simpl; rewrite H2; by rewrite Hd.
Qed.

Lemma poller_makes_two_delayed_requests_then_downloads_witness :
  let third := operation_of true (Some "https://media/v1?alt=media") in
  let remote :=
    video_stub (operation_of false None) [operation_of false None; third] in
  generateVideo remote 5 "a cat runs" None
  = ([GenerateVideos (video_payload "a cat runs" None);
      Sleep 5000; GetVideosOperation (operation_of false None);
      Sleep 5000; GetVideosOperation (operation_of false None);
      Fetch "https://media/v1?alt=media&key=k"],
     Some (Returned "blob:https://media/v1?alt=media&key=k")).
Proof.
  intros third remote.
  destruct (poller_makes_two_delayed_requests_then_downloads remote
              "a cat runs" None (operation_of false None)
              (operation_of false None) third
              "https://media/v1?alt=media" 5) as (r & -> & Hr);
    [reflexivity | reflexivity | reflexivity | reflexivity | reflexivity
    | reflexivity | reflexivity | discriminate | lia |].
  rewrite (Hr {| ok := true;
                 blob := Returned {| bytes := "https://media/v1?alt=media&key=k" |} |}
              {| bytes := "https://media/v1?alt=media&key=k" |});
    reflexivity.
Defined.

(** C6. When the operation reports done and its result payload holds no
    download locator, whether the submission already or a later status
    request reports it, [generateVideo] throws "Video generation failed or
    no URI returned." and makes no download request. *)
Theorem poller_without_locator_throws_and_does_not_download
    (remote : Remote) (prompt : string) (inputImage : option string)
    (submitted final : GenerateVideosOperation) (k fuel : nat) :
  generateVideos remote (video_payload prompt inputImage) = Returned submitted →
  reports remote 0 k submitted final →
  truthy_bool (done final) = true →
  truthy (downloadLink final) = false →
  k ≤ fuel →
  ∃ events,
    generateVideo remote fuel prompt inputImage
    = (events,
       Some (Thrown (new_Error "Video generation failed or no URI returned.")))
    ∧ Forall (λ e, is_fetch e = false) events
    ∧ length (filter (λ e, is_status_request e = true) events) = k.
Proof.
  intros Hsub Hrep Hdone Hlink Hfuel.
  destruct (poll_reports remote k 0 fuel submitted final Hrep Hdone Hfuel)
    as (polled & Hpoll & Hf & Hs & _).
  unfold generateVideo. rewrite Hsub, Hpoll.
  rewrite (download_without_locator remote final Hlink).
  eexists. split; [done|]. rewrite app_nil_r. split.
  - by constructor.
  - by rewrite filter_cons_False by (simpl; discriminate).
Qed.

Lemma poller_without_locator_throws_and_does_not_download_witness :
  let remote :=
    video_stub (operation_of false None) [operation_of true None] in
  generateVideo remote 3 "a cat runs" (Some "data:image/png;base64,QUJD")
  = ([GenerateVideos
        (video_payload "a cat runs" (Some "data:image/png;base64,QUJD"));
      Sleep 5000; GetVideosOperation (operation_of false None)],
     Some (Thrown (new_Error "Video generation failed or no URI returned."))).
Proof.
  intros remote.
  destruct (poller_without_locator_throws_and_does_not_download remote
              "a cat runs" (Some "data:image/png;base64,QUJD")
              (operation_of false None) (operation_of true None) 1 3)
    as (events & Hrun & _ & _).
  - reflexivity.
  - simpl. split; [reflexivity|]. eexists. split; reflexivity.
  - reflexivity.
  - reflexivity.
  - lia.
  - rewrite Hrun. f_equal. vm_compute in Hrun. injection Hrun as <-.
    reflexivity.
Defined.

(** ** The generation handler *)

Import Generator.

Section Handler.
Variable svc : Services.
Implicit Types (st : State) (err : JsError).

Lemma gate_blocks_iff st :
  gate_blocks st = true
  ↔ (activeTab st = TEXT_TO_VIDEO ∨ Generator.resolution st = "2K"
     ∨ Generator.resolution st = "4K")
    ∧ hasPaidKey st = false.
Proof.
  unfold gate_blocks, needsPaidKey.
  rewrite andb_true_iff, !orb_true_iff, negb_true_iff, !String.eqb_eq.
  assert (GenerationType_eqb (activeTab st) TEXT_TO_VIDEO = true
          ↔ activeTab st = TEXT_TO_VIDEO) as ->
    by (destruct (activeTab st); simpl; split; congruence).
  tauto.
Qed.

(** Reaching the [catch] block. *)
Lemma handleGenerate_thrown st events err :
  truthy_string (prompt st) = true →
  gate_blocks st = false →
  dispatch svc st = (events, Thrown err) →
  handleGenerate svc st
  = (setIsGenerating false
       (on_error err
          (setSelectedPreviewIndex 0
             (setResultUrls [] (setError None (setIsGenerating true st))))),
     events).
Proof.
  intros Hp Hg Hd. unfold handleGenerate. by rewrite Hp, Hg, Hd.
Qed.

Lemma is_entity_not_found_iff err :
  is_entity_not_found err = true
  ↔ ∃ m, message err = Some m
         ∧ includes m "Requested entity was not found" = true.
Proof.
  unfold is_entity_not_found. destruct (message err) as [m|].
  - rewrite andb_true_iff. split.
    + intros [_ H]. eauto.
    + intros (m' & [= <-] & H). split; [|done]. by destruct m.
  - split; [done | intros (m' & [=] & _)].
Qed.

End Handler.

(** C4, as stated, fails on a thrown error whose message contains "entity
    was not found" without the word "Requested" before it: the paid-key
    flag stays true. And an error thrown with an empty message is displayed
    as "Generation failed", not as its message. *)
Lemma entity_was_not_found_counterexample :
  let err := new_Error "The entity was not found." in
  let svc := services_of (failing_stub err) 0 in
  let silent := services_of (failing_stub (new_Error EmptyString)) 0 in
  let st := mkState TEXT_TO_IMAGE "a cat" false [] 0 None "16:9" "1K" 1 [] true in
  dispatch svc st = ([GenerateContent (text_request "a cat" (options_of st))],
                     Thrown err)
  ∧ includes "The entity was not found." "entity was not found" = true
  ∧ hasPaidKey (handleGenerate svc st).1 = true
  ∧ error (handleGenerate svc st).1 = Some "The entity was not found."
  ∧ (dispatch silent st).2 = Thrown (new_Error EmptyString)
  ∧ error (handleGenerate silent st).1 = Some "Generation failed".
Proof. vm_compute. repeat split. Qed.

(** C4, amended. In the generation handler, a thrown error whose message
    contains "Requested entity was not found" sets the paid-key flag to
    false, and a thrown error whose message does not contain it leaves the
    flag unchanged; in both cases the message is the displayed error, or
    "Generation failed" when the error has no message or an empty one. *)
Theorem thrown_error_downgrades_paid_key_on_signature
    (svc : Services) (st : State) (events : list Event) (err : JsError) :
  truthy_string (prompt st) = true →
  gate_blocks st = false →
  dispatch svc st = (events, Thrown err) →
  let st' := (handleGenerate svc st).1 in
  (∀ m, message err = Some m →
        includes m "Requested entity was not found" = true →
        hasPaidKey st' = false)
  ∧ ((∀ m, message err = Some m →
           includes m "Requested entity was not found" = false) →
     hasPaidKey st' = hasPaidKey st)
  ∧ (∀ m, message err = Some m → m ≠ EmptyString → error st' = Some m)
  ∧ (message err = None ∨ message err = Some EmptyString →
     error st' = Some "Generation failed").
Proof.
  intros Hp Hg Hd st'. subst st'.
  rewrite (handleGenerate_thrown svc st events err Hp Hg Hd). simpl.
  unfold on_error. repeat split.
  - intros m Hm Hin.
    rewrite (proj2 (is_entity_not_found_iff err)) by eauto. done.
  - intros Hnot. destruct (is_entity_not_found err) eqn:His; [|done].
    apply is_entity_not_found_iff in His as (m & Hm & Hin).
    rewrite (Hnot m Hm) in Hin. discriminate.
  - intros m Hm Hne. rewrite Hm. destruct m as [|c m]; [done|].
    by destruct (is_entity_not_found err).
  - intros [Hm | Hm]; rewrite Hm; by destruct (is_entity_not_found err).
Qed.

Lemma thrown_error_downgrades_paid_key_on_signature_witness :
  let missing := new_Error "404 NOT_FOUND: Requested entity was not found." in
  let other := new_Error "429 RESOURCE_EXHAUSTED" in
  let st := mkState TEXT_TO_IMAGE "a cat" false [] 0 None "16:9" "4K" 2 [] true in
  hasPaidKey (handleGenerate (services_of (failing_stub missing) 0) st).1 = false
  ∧ error (handleGenerate (services_of (failing_stub missing) 0) st).1
    = Some "404 NOT_FOUND: Requested entity was not found."
  ∧ hasPaidKey (handleGenerate (services_of (failing_stub other) 0) st).1 = true
  ∧ error (handleGenerate (services_of (failing_stub other) 0) st).1
    = Some "429 RESOURCE_EXHAUSTED".
Proof.
  intros missing other st.
  destruct (thrown_error_downgrades_paid_key_on_signature
              (services_of (failing_stub missing) 0) st
              [GenerateContent (text_request "a cat" (options_of st));
               GenerateContent (text_request "a cat" (options_of st))] missing)
    as (Hflag & _ & Hmsg & _); [reflexivity | reflexivity | reflexivity |].
  destruct (thrown_error_downgrades_paid_key_on_signature
              (services_of (failing_stub other) 0) st
              [GenerateContent (text_request "a cat" (options_of st));
               GenerateContent (text_request "a cat" (options_of st))] other)
    as (_ & Hkeep & Hmsg' & _); [reflexivity | reflexivity | reflexivity |].
  split; [|split; [|split]].
  - apply (Hflag "404 NOT_FOUND: Requested entity was not found.");
      reflexivity.
  - apply Hmsg; [reflexivity | discriminate].
  - rewrite Hkeep; [reflexivity|]. intros m [= <-]. reflexivity.
  - apply Hmsg'; [reflexivity | discriminate].
Defined.

(** C8. In the generation handler, when the check before dispatch fails
    (video mode, or resolution 2K or 4K, while the paid-key flag is false),
    the attempt stops without issuing any call and without setting an error
    message: the displayed error is cleared and the handler is no longer
    generating. *)
Theorem blocked_gate_issues_no_call_and_sets_no_error
    (svc : Services) (st : State) :
  truthy_string (prompt st) = true →
  (activeTab st = TEXT_TO_VIDEO ∨ Generator.resolution st = "2K"
   ∨ Generator.resolution st = "4K") →
  hasPaidKey st = false →
  (handleGenerate svc st).2 = []
  ∧ error (handleGenerate svc st).1 = None
  ∧ isGenerating (handleGenerate svc st).1 = false
  ∧ resultUrls (handleGenerate svc st).1 = []
  ∧ hasPaidKey (handleGenerate svc st).1 = false.
Proof.
  intros Hp Hneeds Hkey.
  assert (Hg : gate_blocks st = true) by (by apply gate_blocks_iff).
  unfold handleGenerate. rewrite Hp, Hg. simpl. by rewrite Hkey.
Qed.

Lemma blocked_gate_issues_no_call_and_sets_no_error_witness :
  let remote :=
    video_stub (operation_of true (Some "https://media/v1?alt=media")) [] in
  let st :=
    mkState TEXT_TO_VIDEO "a cat runs" false ["data:old"] 0
      (Some "an earlier error") "16:9" "1K" 1 [] false in
  (handleGenerate (services_of remote 3) st).2 = []
  ∧ error (handleGenerate (services_of remote 3) st).1 = None.
Proof.
  intros remote st.
  destruct (blocked_gate_issues_no_call_and_sets_no_error
              (services_of remote 3) st) as (Hcalls & Herr & _);
    [reflexivity | left; reflexivity | reflexivity |].
  split; [exact Hcalls | exact Herr].
Defined.

(** * Further properties of the code *)

(** ** The fan-out beyond full success *)

Section JoinOutcomes.
Context {A : Type}.
Implicit Types (promises : list (Completion A)) (order : list nat)
  (values : list (option A)).

Lemma all_values_length values (l : list A) :
  all_values values = Some l → length l = length values.
Proof.
  revert l. induction values as [|[a|] values IH]; intros l; simpl.
  - by intros [= <-].
  - destruct (all_values values) as [l'|]; [|done].
    intros [= <-]. simpl. by rewrite (IH l').
  - done.
Qed.

Lemma settle_returned_length promises order values (l : list A) :
  settle promises order values = Returned l → length l = length values.
Proof.
  revert values. induction order as [|i order IH]; intros values; simpl.
  - destruct (all_values values) as [l'|] eqn:Hl; [|done].
    intros [= <-]. by apply all_values_length.
  - destruct (promises !! i) as [[a|e|]|]; try done.
    + intros H. apply IH in H. by rewrite length_insert in H.
    + apply IH.
    + apply IH.
Qed.

(** A rejection that completes rejects the join, with the error of one of
    the promises. *)
Lemma settle_thrown promises order values i e :
  i ∈ order → promises !! i = Some (Thrown e) →
  ∃ j e', promises !! j = Some (Thrown e')
          ∧ settle promises order values = Thrown e'.
Proof.
  revert values. induction order as [|k order IH]; intros values Hin Hi.
  - by apply elem_of_nil in Hin.
  - simpl. destruct (promises !! k) as [[a|e'|]|] eqn:Hk.
    + apply elem_of_cons in Hin as [->|Hin]; [congruence|]. by apply IH.
    + eauto.
    + apply elem_of_cons in Hin as [->|Hin]; [congruence|]. by apply IH.
    + apply elem_of_cons in Hin as [->|Hin]; [congruence|]. by apply IH.
Qed.

End JoinOutcomes.

Section FanOutOutcomes.
Variables (remote : Remote) (request : GenerateContentParameters).
Implicit Types (slots : list unit) (urls : list string).

Lemma response_url_form (r : GenerateContentResponse) url :
  response_url r = Some url →
  ∃ d, d ≠ EmptyString ∧ url = "data:image/png;base64," +:+ d.
Proof.
  unfold response_url.
  destruct (first_candidate_parts r) as [ps|]; [|done].
  induction ps as [|p ps IH]; simpl; [done|].
  destruct (inlineData p) as [b|]; [|exact IH].
  destruct (data b) as [d|]; simpl; [|exact IH].
  destruct d as [|c d]; simpl; [exact IH|].
  intros [= <-]. by exists (String c d).
Qed.

Lemma omap_response_url_bounds (rs : list GenerateContentResponse) :
  length (omap response_url rs) ≤ length rs
  ∧ Forall (λ url, ∃ d, d ≠ EmptyString
                        ∧ url = "data:image/png;base64," +:+ d)
      (omap response_url rs).
Proof.
  induction rs as [|r rs [IHl IHf]]; simpl; [by split|].
  destruct (response_url r) as [url|] eqn:Hu; simpl.
  - split; [by apply le_n_S|].
    constructor; [by eapply response_url_form | exact IHf].
  - split; [by apply Nat.le_le_succ_r | exact IHf].
Qed.

Lemma fan_out_returned slots urls :
  (fan_out remote request slots).2 = Returned urls →
  urls ≠ [] ∧ length urls ≤ length slots
  ∧ Forall (λ url, ∃ d, d ≠ EmptyString
                        ∧ url = "data:image/png;base64," +:+ d) urls.
Proof.
  unfold fan_out.
  destruct (Promise_all _ _) as [rs| |] eqn:Hall; [|done..].
  rewrite fold_push_image_url. simpl.
  destruct (omap_response_url_bounds rs) as [Hlen Hform].
  apply settle_returned_length in Hall.
  rewrite length_replicate, length_imap in Hall.
  destruct (omap response_url rs) as [|u us] eqn:Hus; simpl; [done|].
  intros [= <-]. split; [done|]. split; [lia | done].
Qed.

Lemma fan_out_thrown n i e :
  i < n → i ∈ completion_order remote →
  generateContent remote i request = Thrown e →
  ∃ j e', j < n ∧ generateContent remote j request = Thrown e'
          ∧ (fan_out remote request (replicate n tt)).2 = Thrown e'.
Proof.
  intros Hi Hin He. unfold fan_out.
  set (promises := imap _ _).
  assert (Hlook : ∀ j c, promises !! j = Some c →
                         j < n ∧ generateContent remote j request = c).
  { intros j c. unfold promises. rewrite list_lookup_imap.
    destruct (replicate n tt !! j) as [u|] eqn:Hj; [|done].
    apply lookup_replicate in Hj as [_ Hj]. simpl. by intros [= <-]. }
  destruct (settle_thrown promises (completion_order remote)
              (replicate (length promises) None) i e Hin)
    as (j & e' & Hj & Hs).
  { unfold promises. rewrite list_lookup_imap.
    by rewrite (lookup_replicate_2 n tt i Hi); simpl; rewrite He. }
  apply Hlook in Hj as [Hj He']. exists j, e'.
  unfold Promise_all. by rewrite Hs.
Qed.

Lemma fan_out_partial n responses :
  all_return remote request n responses →
  all_complete remote n →
  Exists has_inline_binary responses →
  (fan_out remote request (replicate n tt)).2
  = Returned (omap response_url responses).
Proof.
  intros Hret Hcomp Hex.
  rewrite (fan_out_all_return remote request n responses Hret Hcomp). simpl.
  destruct (omap response_url responses) as [|u us] eqn:Hus; [|done].
  exfalso. apply Exists_exists in Hex as (r & Hr & Himg).
  apply has_inline_binary_url in Himg as [url Hurl].
  assert (url ∈ omap response_url responses)
    by (apply list_elem_of_omap; eauto).
  rewrite Hus in H. by apply elem_of_nil in H.
Qed.

End FanOutOutcomes.

Section ImageOutcomes.
Variable remote : Remote.
Implicit Types (prompt : string) (referenceImages : list string)
  (options : option ImageGenerationOptions).

Lemma Array_fill_null_cases c :
  ((0 ≤ c < 2 ^ 32)%Z
   ∧ Array_fill_null c = inr (replicate (Z.to_nat c) tt))
  ∨ (¬ (0 ≤ c < 2 ^ 32)%Z
     ∧ Array_fill_null c = inl (new_RangeError "Invalid array length")).
Proof.
  unfold Array_fill_null.
  destruct (0 <=? c)%Z eqn:H0; destruct (c <? 2 ^ 32)%Z eqn:H1; simpl;
    rewrite ?Z.leb_le, ?Z.leb_gt, ?Z.ltb_lt, ?Z.ltb_ge in H0, H1;
    [left | right..]; (split; [lia | done]).
Qed.

End ImageOutcomes.

(** X1. When every call returns and only some responses hold an inline
    binary part, the image operations return the URLs of those responses
    alone, in the order of issue: a list shorter than count, without an
    error. *)
Theorem partial_fan_out_returns_the_urls_found
    (remote : Remote) (prompt : string) (referenceImages : list string)
    (options : option ImageGenerationOptions)
    (from_text from_image : list GenerateContentResponse) :
  (0 ≤ count options < 2 ^ 32)%Z →
  all_complete remote (Z.to_nat (count options)) →
  all_return remote (text_request prompt options)
    (Z.to_nat (count options)) from_text →
  Exists has_inline_binary from_text →
  all_return remote (image_request referenceImages prompt options)
    (Z.to_nat (count options)) from_image →
  Exists has_inline_binary from_image →
  (generateImageFromText remote prompt options).2
  = Returned (omap response_url from_text)
  ∧ (generateImageFromImage remote referenceImages prompt options).2
    = Returned (omap response_url from_image).
Proof.
  intros Hc Hcomp Ht Hti Hi Hii.
  rewrite generateImageFromText_fan_out, generateImageFromImage_fan_out by done.
  split; by apply fan_out_partial.
Qed.

Lemma partial_fan_out_returns_the_urls_found_witness :
  let remote :=
    image_stub [Returned (response_with [text_part "refused"]);
                Returned (response_with [png_part "BBBB"]);
                Returned (response_with []);
                Returned (response_with [png_part "DDDD"])] [3; 2; 1; 0] in
  let options := Some (mkOptions None None (Some 4%Z)) in
  (generateImageFromText remote "a cat" options).2
  = Returned ["data:image/png;base64,BBBB"; "data:image/png;base64,DDDD"]
  ∧ (generateImageFromImage remote ["data:image/png;base64,QUJD"] "a cat"
       options).2
    = Returned ["data:image/png;base64,BBBB"; "data:image/png;base64,DDDD"].
Proof.
  intros remote options.
  set (rs := [response_with [text_part "refused"];
              response_with [png_part "BBBB"]; response_with [];
              response_with [png_part "DDDD"]]).
  assert (Himg : Exists has_inline_binary rs).
  { apply Exists_cons_tl, Exists_cons_hd, has_inline_binary_url.
    vm_compute. eauto. }
  assert (Hret : ∀ request, all_return remote request 4 rs).
  { intros request. split; [reflexivity|].
    intros [|[|[|[|i]]]] r Hr; simpl in Hr; inversion Hr; reflexivity. }
  assert (Hcomp : all_complete remote 4).
  { intros [|[|[|[|i]]]] Hi; simpl; [repeat constructor.. | lia]. }
  exact (partial_fan_out_returns_the_urls_found remote "a cat"
           ["data:image/png;base64,QUJD"] options rs rs
           ltac:(vm_compute; split; [discriminate | reflexivity])
           Hcomp (Hret _) Himg (Hret _) Himg).
Defined.

(** X2. When one of the calls of the fan-out throws and completes, the
    image operations throw the error of a call that threw, whatever the
    other calls returned: they return no list. *)
Theorem one_rejected_call_rejects_the_batch
    (remote : Remote) (prompt : string) (referenceImages : list string)
    (options : option ImageGenerationOptions) (i k : nat) (e e' : JsError) :
  (0 ≤ count options < 2 ^ 32)%Z →
  i < Z.to_nat (count options) → i ∈ completion_order remote →
  generateContent remote i (text_request prompt options) = Thrown e →
  k < Z.to_nat (count options) → k ∈ completion_order remote →
  generateContent remote k (image_request referenceImages prompt options)
  = Thrown e' →
  (∃ j thrown,
     j < Z.to_nat (count options)
     ∧ generateContent remote j (text_request prompt options) = Thrown thrown
     ∧ (generateImageFromText remote prompt options).2 = Thrown thrown)
  ∧ (∃ j thrown,
       j < Z.to_nat (count options)
       ∧ generateContent remote j
           (image_request referenceImages prompt options) = Thrown thrown
       ∧ (generateImageFromImage remote referenceImages prompt options).2
         = Thrown thrown).
Proof.
  intros Hc Hi Hin He Hk Hkin He'.
  rewrite generateImageFromText_fan_out, generateImageFromImage_fan_out by done.
  split.
  - exact (fan_out_thrown remote _ _ i e Hi Hin He).
  - exact (fan_out_thrown remote _ _ k e' Hk Hkin He').
Qed.

Lemma one_rejected_call_rejects_the_batch_witness :
  let quota := new_Error "429 RESOURCE_EXHAUSTED" in
  let remote :=
    image_stub [Returned (response_with [png_part "AAAA"]);
                Thrown quota;
                Returned (response_with [png_part "CCCC"])] [0; 2; 1] in
  let options := Some (mkOptions None None (Some 3%Z)) in
  (generateImageFromText remote "a cat" options).2 = Thrown quota
  ∧ (generateImageFromImage remote ["data:image/png;base64,QUJD"] "a cat"
       options).2 = Thrown quota.
Proof.
  intros quota remote options.
  destruct (one_rejected_call_rejects_the_batch remote "a cat"
              ["data:image/png;base64,QUJD"] options 1 1 quota quota)
    as [(j & e1 & Hj & He1 & ->) (j' & e2 & Hj' & He2 & ->)];
    [vm_compute; split; [discriminate | reflexivity] | vm_compute; lia
    | repeat constructor | reflexivity | vm_compute; lia | repeat constructor
    | reflexivity |].
  assert (Hq : ∀ request j e,
             generateContent remote j request = Thrown e → e = quota).
  { intros request [|[|[|j0]]] e0 H; vm_compute in H; try discriminate.
    by injection H as <-. }
  split; f_equal.
  - exact (Hq _ j e1 He1).
  - exact (Hq _ j' e2 He2).
Defined.

(** X3. A requested number of images that is not an array length (a
    negative one, or 2^32 and more) makes both image operations throw a
    RangeError before any call is issued. *)
Theorem invalid_count_throws_before_any_call
    (remote : Remote) (prompt : string) (referenceImages : list string)
    (options : option ImageGenerationOptions) :
  ¬ (0 ≤ count options < 2 ^ 32)%Z →
  generateImageFromText remote prompt options
  = ([], Thrown (new_RangeError "Invalid array length"))
  ∧ generateImageFromImage remote referenceImages prompt options
    = ([], Thrown (new_RangeError "Invalid array length")).
Proof.
  intros Hc. unfold generateImageFromText, generateImageFromImage.
  destruct (Array_fill_null_cases (count options)) as [[H _] | [_ ->]]; done.
Qed.

Lemma invalid_count_throws_before_any_call_witness :
  let remote := image_stub [Returned (response_with [png_part "AAAA"])] [0] in
  generateImageFromText remote "a cat"
    (Some (mkOptions None None (Some (-1)%Z)))
  = ([], Thrown (new_RangeError "Invalid array length")).
Proof.
  intros remote.
  apply (invalid_count_throws_before_any_call remote "a cat" []
           (Some (mkOptions None None (Some (-1)%Z)))).
  vm_compute. intros [H _]. by apply H.
Defined.

(** X4. Both image operations issue all their calls before they wait for
    any: whatever the calls do, the calls issued are count copies of one
    request. *)
Theorem fan_out_issues_count_identical_calls
    (remote : Remote) (prompt : string) (referenceImages : list string)
    (options : option ImageGenerationOptions) :
  (0 ≤ count options < 2 ^ 32)%Z →
  (generateImageFromText remote prompt options).1
  = replicate (Z.to_nat (count options))
      (GenerateContent (text_request prompt options))
  ∧ (generateImageFromImage remote referenceImages prompt options).1
    = replicate (Z.to_nat (count options))
        (GenerateContent (image_request referenceImages prompt options)).
Proof.
  intros Hc.
  rewrite generateImageFromText_fan_out, generateImageFromImage_fan_out by done.
  by rewrite !fan_out_issues, !fmap_replicate.
Qed.

Lemma fan_out_issues_count_identical_calls_witness :
  length (generateImageFromText (failing_stub (new_Error "503")) "a cat"
            (Some (mkOptions None None (Some 4%Z)))).1 = 4.
Proof.
  destruct (fan_out_issues_count_identical_calls
              (failing_stub (new_Error "503")) "a cat" []
              (Some (mkOptions None None (Some 4%Z)))) as [-> _].
  - vm_compute. split; [discriminate | reflexivity].
  - by rewrite length_replicate.
Defined.

(** X5. A list returned by an image operation is never empty, never longer
    than count, and each of its URLs is "data:image/png;base64," followed
    by non-empty data, whatever mime type the response gave. *)
Theorem returned_urls_are_png_data_uris
    (remote : Remote) (prompt : string) (referenceImages : list string)
    (options : option ImageGenerationOptions) (urls : list string) :
  (generateImageFromText remote prompt options).2 = Returned urls
  ∨ (generateImageFromImage remote referenceImages prompt options).2
    = Returned urls →
  urls ≠ []
  ∧ length urls ≤ Z.to_nat (count options)
  ∧ Forall (λ url, ∃ d, d ≠ EmptyString
                        ∧ url = "data:image/png;base64," +:+ d) urls.
Proof.
  unfold generateImageFromText, generateImageFromImage.
  destruct (Array_fill_null_cases (count options)) as [[_ ->] | [_ ->]].
  - intros [H | H]; apply fan_out_returned in H;
      by rewrite length_replicate in H.
  - by intros [H | H].
Qed.

Lemma returned_urls_are_png_data_uris_witness :
  let jpeg :=
    {| text := None;
       inlineData := Some {| data := Some "/9j/4AAQ";
                             mimeType := Some "image/jpeg" |} |} in
  let remote := image_stub [Returned (response_with [jpeg])] [0] in
  Forall (λ url, ∃ d, d ≠ EmptyString
                      ∧ url = "data:image/png;base64," +:+ d)
    ["data:image/png;base64,/9j/4AAQ"].
Proof.
  intros jpeg remote.
  apply (returned_urls_are_png_data_uris remote "a cat" [] None
           ["data:image/png;base64,/9j/4AAQ"]).
  left. reflexivity.
Defined.

Import Vocabulary.

(** ** The data-URI patterns *)

Section Matcher.
Context {R : Type}.
Implicit Types (k : nat → string → captures → option R) (p : ascii → bool).

Lemma run_star_class_nil p pos cs k :
  run (Star (Class p)) pos EmptyString cs k = k pos EmptyString cs.
Proof. reflexivity. Qed.

Lemma run_star_class_cons p c s pos cs k :
  run (Star (Class p)) pos (String c s) cs k
  = if p c then
      match run (Star (Class p)) (S pos) s cs k with
      | Some x => Some x
      | None => k pos (String c s) cs
      end
    else k pos (String c s) cs.
Proof.
  change (run (Star (Class p)) pos (String c s) cs k)
    with (match (if p c
                 then if Nat.eqb (S pos) pos then None
                      else run (Star (Class p)) (S pos) s cs k
                 else None) with
          | Some x => Some x
          | None => k pos (String c s) cs
          end).
  assert (Nat.eqb (S pos) pos = false) as -> by (apply Nat.eqb_neq; lia).
  by destruct (p c).
Qed.

(** A literal consumes itself. *)
Lemma run_lit l s pos cs k :
  l ≠ EmptyString →
  run (Lit l) pos (l +:+ s) cs k = k (String.length l + pos) s cs.
Proof.
  revert pos. induction l as [|c l IH]; intros pos Hne; [done|].
  destruct l as [|c' l].
  - simpl. by rewrite Ascii.eqb_refl.
  - change (Lit (String c (String c' l)))
      with (Seq (Chr c) (Lit (String c' l))).
    change (run (Seq (Chr c) (Lit (String c' l))) pos
              (String c (String c' l) +:+ s) cs k)
      with (if Ascii.eqb c c
            then run (Lit (String c' l)) (S pos) (String c' l +:+ s) cs k
            else None).
    rewrite Ascii.eqb_refl, IH by done.
    f_equal. simpl. lia.
Qed.

(** The greedy star takes all of a run of characters of the class when the
    continuation accepts what follows the run. *)
Lemma run_star_greedy p a s pos cs k x :
  forallb p (list_ascii_of_string a) = true →
  (∀ c s', s = String c s' → p c = false) →
  k (String.length a + pos) s cs = Some x →
  run (Star (Class p)) pos (a +:+ s) cs k = Some x.
Proof.
  revert pos. induction a as [|c a IH]; intros pos Hall Hstop Hk.
  - simpl in Hk. change (EmptyString +:+ s) with s. destruct s as [|c s'].
    + by rewrite run_star_class_nil.
    + by rewrite run_star_class_cons, (Hstop c s' eq_refl).
  - simpl in Hall. apply andb_true_iff in Hall as [Hc Hall].
    change (String c a +:+ s) with (String c (a +:+ s)).
    rewrite run_star_class_cons, Hc, (IH (S pos)); [done | done | done |].
    rewrite <- Hk. f_equal. simpl. lia.
Qed.

(** The star succeeds where its continuation does, and one character of
    the class earlier. *)
Lemma run_star_succeeds p s pos cs k :
  is_Some (k pos s cs) → is_Some (run (Star (Class p)) pos s cs k).
Proof.
  intros Hk. destruct s as [|c s].
  - by rewrite run_star_class_nil.
  - rewrite run_star_class_cons. destruct (p c); [|done].
    by destruct (run (Star (Class p)) (S pos) s cs k).
Qed.

Lemma run_star_step p c s pos cs k :
  p c = true → is_Some (run (Star (Class p)) (S pos) s cs k) →
  is_Some (run (Star (Class p)) pos (String c s) cs k).
Proof.
  intros Hc [x Hx]. rewrite run_star_class_cons, Hc, Hx. by eexists.
Qed.

End Matcher.

Section Captures.
Implicit Types (k : nat → string → captures → option match_result)
  (p : ascii → bool).

Lemma run_star_keeps_captures p k :
  keeps_captures k →
  keeps_captures (λ pos s cs, run (Star (Class p)) pos s cs k).
Proof.
  intros Hk pos s. revert pos. induction s as [|c s IH]; intros pos cs m.
  - rewrite run_star_class_nil. apply Hk.
  - rewrite run_star_class_cons. destruct (p c); [|apply Hk].
    destruct (run (Star (Class p)) (S pos) s cs k) as [m'|] eqn:Hm.
    + intros [= <-]. by eapply IH.
    + apply Hk.
Qed.

End Captures.

Section DataUri.
Implicit Types (payload sub : string).

Lemma run_seq {R : Type} r1 r2 pos s cs
    (k : nat → string → captures → option R) :
  run (Seq r1 r2) pos s cs k
  = run r1 pos s cs (λ pos1 s1 cs1, run r2 pos1 s1 cs1 k).
Proof. reflexivity. Qed.

Lemma run_chr {R : Type} c s pos cs
    (k : nat → string → captures → option R) :
  run (Chr c) pos (String c s) cs k = k (S pos) s cs.
Proof. simpl. by rewrite Ascii.eqb_refl. Qed.

Lemma run_chr_other {R : Type} c b s pos cs
    (k : nat → string → captures → option R) :
  Ascii.eqb c b = false → run (Chr c) pos (String b s) cs k = None.
Proof.
  intros Hb.
  change (run (Chr c) pos (String b s) cs k)
    with (if Ascii.eqb c b then k (S pos) s cs else None).
  by rewrite Hb.
Qed.

Lemma run_class {R : Type} p c s pos cs
    (k : nat → string → captures → option R) :
  p c = true → run (Class p) pos (String c s) cs k = k (S pos) s cs.
Proof. simpl. by intros ->. Qed.

Lemma run_group {R : Type} n r pos s cs
    (k : nat → string → captures → option R) :
  run (Group n r) pos s cs k
  = run r pos s cs
      (λ pos1 s1 cs1, k pos1 s1 ((n, take_string (pos1 - pos) s) :: cs1)).
Proof. reflexivity. Qed.

Lemma search_hit r pre pos s m :
  match_at r pre pos s = Some m → search r pre pos s = Some m.
Proof. intros H. destruct s; simpl; by rewrite H. Qed.

Lemma take_string_app a b :
  take_string (String.length a) (a +:+ b) = a.
Proof. induction a as [|c a IH]; simpl; [by destruct b | by rewrite IH]. Qed.

(** What follows the mime type in the pattern, [.*,.*], matches from
    [;base64,] on and leaves the captures alone. *)
Lemma run_after_mime payload pos cs k :
  keeps_captures k → (∀ pos s cs, is_Some (k pos s cs)) →
  ∃ m, run (Seq (Star (Class dot)) (Seq (Chr ",") (Star (Class dot))))
         pos (";base64," +:+ payload) cs k = Some m
       ∧ groups m = cs.
Proof.
  intros Hkeep Htotal. rewrite run_seq.
  set (k1 := λ pos1 s1 cs1,
               run (Seq (Chr ",") (Star (Class dot))) pos1 s1 cs1 k).
  assert (Hk1 : keeps_captures k1).
  { intros p1 s1 c1 m. unfold k1. rewrite run_seq.
    destruct s1 as [|b s1]; [done|].
    destruct (Ascii.eqb "," b) eqn:Hb.
    - apply Ascii.eqb_eq in Hb as <-. rewrite run_chr.
      apply (run_star_keeps_captures dot k Hkeep).
    - by rewrite run_chr_other. }
  assert (Hsome : is_Some (run (Star (Class dot)) pos
                             (";base64," +:+ payload) cs k1)).
  { change (";base64," +:+ payload)
      with (String ";" (String "b" (String "a" (String "s" (String "e"
              (String "6" (String "4" (String "," payload)))))))).
    do 7 (apply run_star_step; [reflexivity|]).
    apply run_star_succeeds. unfold k1. rewrite run_seq, run_chr.
    apply run_star_succeeds, Htotal. }
  destruct Hsome as [m Hm]. exists m. split; [done|].
  exact (run_star_keeps_captures dot k1 Hk1 _ _ _ _ Hm).
Qed.

(** The mime pattern recovers [image/sub] from a base64 data URI of any
    image subtype, whatever the payload. *)
Lemma mimeType_of_image_data_uri sub payload :
  sub ≠ EmptyString →
  forallb subtype_char (list_ascii_of_string sub) = true →
  mimeType_of ("data:image/" +:+ sub +:+ ";base64," +:+ payload)
  = "image/" +:+ sub.
Proof.
  intros Hne Hsub. destruct sub as [|c sub]; [done|].
  simpl in Hsub. apply andb_true_iff in Hsub as [Hc Hsub].
  set (tail := ";base64," +:+ payload).
  set (s1 := "image/" +:+ String c sub +:+ tail).
  set (kf := λ pos1 s' cs1,
               Some (MatchResult EmptyString
                       (take_string (pos1 - 0) ("data:" +:+ s1)) s' cs1)).
  destruct (run_after_mime payload (String.length sub + 12)
              [(1, take_string (String.length sub + 12 - 5) s1)] kf)
    as (m & Hm & Hg); [by intros ? ? ? ? [= <-] | by eexists|].
  assert (Hrun : match_at data_uri_mime EmptyString 0 ("data:" +:+ s1)
                 = Some m).
  { unfold match_at, data_uri_mime. fold kf.
    rewrite run_seq, (run_lit "data:" s1 0) by done.
    rewrite run_seq, run_group, run_seq.
    unfold Plus at 1. rewrite run_seq.
    change s1 with (String "i" ("mage" +:+ String "/" (String c sub +:+ tail))).
    rewrite run_class by reflexivity.
    apply (run_star_greedy alnum "mage"); [reflexivity | by intros ? ? [= <- _]|].
    rewrite run_seq, run_chr. unfold Plus. rewrite run_seq.
    change (String c sub +:+ tail) with (String c (sub +:+ tail)).
    rewrite run_class by done.
    apply (run_star_greedy subtype_char sub tail);
      [done | by intros ? ? [= <- _]|].
    exact Hm. }
  assert (Hexec : exec data_uri_mime ("data:" +:+ s1) = Some m)
    by apply search_hit, Hrun.
  unfold mimeType_of, match_group.
  change (exec data_uri_mime _) with (exec data_uri_mime ("data:" +:+ s1)).
  rewrite Hexec. simpl. rewrite Hg. simpl.
  replace (String.length sub + 12 - 5) with (String.length ("image/" +:+ String c sub))
    by (simpl; lia).
  unfold s1. rewrite (take_string_app ("image/" +:+ String c sub) tail) at 1.
  reflexivity.
Qed.

End DataUri.

Section Prefix.
Implicit Types (img payload : string).

(** An anchored pattern matches at the start of the subject or nowhere. *)
Lemma search_anchored_later r s pre pos :
  pos ≠ 0 → search (Seq Bol r) pre pos s = None.
Proof.
  revert pre pos. induction s as [|c s IH]; intros pre pos Hpos.
  - simpl. unfold match_at. rewrite run_seq. simpl.
    by destruct pos.
  - change (search (Seq Bol r) pre pos (String c s))
      with (match match_at (Seq Bol r) pre pos (String c s) with
            | Some m => Some m
            | None => search (Seq Bol r) (pre +:+ String c EmptyString)
                        (S pos) s
            end).
    unfold match_at. rewrite run_seq.
    change (run Bol pos (String c s) [] _) with
      (if Nat.eqb pos 0 then
         run r pos (String c s) []
           (λ pos1 s1 cs1,
              Some (MatchResult pre (take_string (pos1 - pos) (String c s))
                      s1 cs1))
       else None).
    destruct pos; [done|]. simpl. by apply IH.
Qed.

Lemma exec_anchored r s :
  exec (Seq Bol r) s = match_at (Seq Bol r) EmptyString 0 s.
Proof.
  unfold exec. destruct s as [|c s]; simpl.
  - by destruct (match_at _ _ _ _).
  - destruct (match_at _ _ _ _); [done|]. by apply search_anchored_later.
Qed.

End Prefix.

Section Stripping.
Implicit Types (img payload : string).

Ltac decide_char :=
  match goal with
  | |- context [Ascii.eqb ?a ?b] =>
      first [ is_var b; destruct (Ascii.eqb_spec a b) as [<-|?]
            | let v := eval vm_compute in (Ascii.eqb a b) in
              change (Ascii.eqb a b) with v ]
  | |- context [match ?s with EmptyString => _ | String _ _ => _ end] =>
      is_var s; destruct s
  end.

(** The stripping pattern matches exactly the base64 data URIs of the four
    listed image types. *)
Lemma match_at_prefix_cases img :
  match_at data_uri_prefix EmptyString 0 img = None
  ∨ ∃ sub rest,
      sub ∈ ["png"; "jpeg"; "jpg"; "webp"]
      ∧ img = "data:image/" +:+ sub +:+ ";base64," +:+ rest.
Proof.
  unfold match_at, data_uri_prefix.
  cbn -[Ascii.eqb].
  repeat (decide_char; cbn -[Ascii.eqb]);
    first [ by left
          | right; eexists "png", _; split; [repeat constructor | reflexivity]
          | right; eexists "jpeg", _; split; [repeat constructor | reflexivity]
          | right; eexists "jpg", _; split; [repeat constructor | reflexivity]
          | right; eexists "webp", _; split; [repeat constructor | reflexivity] ].
Qed.

(** [cleanBase64] leaves its argument as it is, or removes from its start
    the base64 data-URI prefix of one of the four listed image types; it
    never touches what follows. *)
Lemma cleanBase64_cases img :
  cleanBase64 img = img
  ∨ ∃ sub, sub ∈ ["png"; "jpeg"; "jpg"; "webp"]
           ∧ img = "data:image/" +:+ sub +:+ ";base64," +:+ cleanBase64 img.
Proof.
  destruct (match_at_prefix_cases img) as [Hnone | (sub & rest & Hsub & ->)].
  - left. unfold cleanBase64, replace, data_uri_prefix.
    rewrite exec_anchored. fold data_uri_prefix. by rewrite Hnone.
  - right. exists sub. split; [done|].
    destruct (cleanBase64_listed rest) as (Hpng & Hjpeg & Hjpg & Hwebp).
    repeat (apply elem_of_cons in Hsub as [->|Hsub]).
    + exact (f_equal (String.append "data:image/png;base64,") (eq_sym Hpng)).
    + exact (f_equal (String.append "data:image/jpeg;base64,") (eq_sym Hjpeg)).
    + exact (f_equal (String.append "data:image/jpg;base64,") (eq_sym Hjpg)).
    + exact (f_equal (String.append "data:image/webp;base64,") (eq_sym Hwebp)).
    + by apply elem_of_nil in Hsub.
Qed.

End Stripping.

Section DataUriParts.
Implicit Types (sub payload : string).

Lemma string_app_cons c a b : String c a +:+ b = String c (a +:+ b).
Proof. reflexivity. Qed.

(** Two data URIs with subtypes free of [;] are equal only when their
    subtypes are. *)
Lemma subtype_before_semicolon sub sub' payload rest :
  subtype_chars sub = true → subtype_chars sub' = true →
  sub +:+ ";base64," +:+ payload = sub' +:+ ";base64," +:+ rest →
  sub = sub'.
Proof.
  unfold subtype_chars. revert sub'.
  induction sub as [|c sub IH]; intros [|c' sub'] Hs Hs' Heq; simpl in *.
  - done.
  - injection Heq as <- _. by apply andb_true_iff in Hs' as [Hc _].
  - injection Heq as -> _. by apply andb_true_iff in Hs as [Hc _].
  - injection Heq as -> Heq.
    apply andb_true_iff in Hs as [_ Hs]. apply andb_true_iff in Hs' as [_ Hs'].
    f_equal. by apply IH.
Qed.

Lemma listed_subtype_chars sub :
  sub ∈ listed_subtypes → sub ≠ EmptyString ∧ subtype_chars sub = true.
Proof.
  unfold listed_subtypes. intros H.
  repeat (apply elem_of_cons in H as [->|H]); [done..|].
  by apply elem_of_nil in H.
Qed.

End DataUriParts.

(** X6. The parts of an image-to-image request are one binary part per
    reference image, in the order supplied, followed by the single text
    part with the refined prompt. *)
Theorem reference_parts_then_text
    (referenceImages : list string) (prompt : string) :
  contents (image_request referenceImages prompt None)
  = PartsContent ((inline_part <$> referenceImages)
                  ++ [text_part (refine_prompt prompt)])
  ∧ ∀ options,
      contents (image_request referenceImages prompt options)
      = contents (image_request referenceImages prompt None).
Proof. split; [simpl; by rewrite build_parts_order | done]. Qed.

(** X7. A reference image that is the base64 data URI of a png, jpeg, jpg
    or webp image becomes a binary part whose data is the payload alone and
    whose mime type is the one of the URI, whatever the payload. *)
Theorem listed_data_uri_becomes_payload_and_mime (sub payload : string) :
  sub ∈ listed_subtypes →
  inline_part (image_data_uri sub payload)
  = {| text := None;
       inlineData := Some {| data := Some payload;
                             mimeType := Some ("image/" +:+ sub) |} |}.
Proof.
  intros Hsub. destruct (listed_subtype_chars sub Hsub) as [Hne Hchars].
  unfold inline_part, image_data_uri.
  rewrite (mimeType_of_image_data_uri sub payload Hne Hchars).
  destruct (cleanBase64_listed payload) as (Hpng & Hjpeg & Hjpg & Hwebp).
  unfold listed_subtypes in Hsub.
  repeat (apply elem_of_cons in Hsub as [->|Hsub]).
  - exact (f_equal (λ x, mkPart None (Some (mkBlob (Some x) _))) Hpng).
  - exact (f_equal (λ x, mkPart None (Some (mkBlob (Some x) _))) Hjpeg).
  - exact (f_equal (λ x, mkPart None (Some (mkBlob (Some x) _))) Hjpg).
  - exact (f_equal (λ x, mkPart None (Some (mkBlob (Some x) _))) Hwebp).
  - by apply elem_of_nil in Hsub.
Qed.

Lemma listed_data_uri_becomes_payload_and_mime_witness :
  inline_part "data:image/webp;base64,UklGRg=="
  = {| text := None;
       inlineData := Some {| data := Some "UklGRg==";
                             mimeType := Some "image/webp" |} |}.
Proof.
  apply (listed_data_uri_becomes_payload_and_mime "webp" "UklGRg==").
  unfold listed_subtypes. repeat constructor.
Defined.

(** X8. A URL returned by an image operation, used as a reference image or
    as the seed of a video, gives back the data it was made of, tagged
    image/png. *)
Theorem returned_url_round_trips_as_reference (d prompt : string) :
  inline_part (image_url d)
  = {| text := None;
       inlineData := Some {| data := Some d;
                             mimeType := Some "image/png" |} |}
  ∧ image (video_payload prompt (Some (image_url d)))
    = Some {| imageBytes := d; image_mimeType := "image/png" |}.
Proof.
  pose proof (listed_data_uri_becomes_payload_and_mime "png" d
                ltac:(unfold listed_subtypes; repeat constructor)) as H.
  split; [exact H|].
  destruct (cleanBase64_listed d) as (Hd & _).
  pose proof (mimeType_of_image_data_uri "png" d
                ltac:(discriminate) eq_refl) as Hm.
  change ("data:image/png;base64," +:+ d) with (image_url d) in Hd.
  change ("data:image/" +:+ "png" +:+ ";base64," +:+ d)
    with (image_url d) in Hm.
  simpl. by rewrite Hd, Hm.
Qed.

(** X9. Stripping leaves a reference image as it is, or removes from its
    start the base64 data-URI prefix of a png, jpeg, jpg or webp image: it
    never alters what follows the prefix. *)
Theorem stripping_removes_a_listed_prefix_or_nothing (img : string) :
  cleanBase64 img = img
  ∨ ∃ sub, sub ∈ listed_subtypes
           ∧ img = image_data_uri sub (cleanBase64 img).
Proof. exact (cleanBase64_cases img). Qed.

(** X10. A reference image that is the base64 data URI of an image of any
    other subtype (gif, bmp, svg+xml, avif, ...) becomes a binary part
    tagged with the mime type of the URI whose data is the whole data URI,
    prefix included, whatever the payload. *)
Theorem unlisted_data_uri_keeps_its_prefix (sub payload : string) :
  sub ≠ EmptyString → subtype_chars sub = true → sub ∉ listed_subtypes →
  inline_part (image_data_uri sub payload)
  = {| text := None;
       inlineData := Some {| data := Some (image_data_uri sub payload);
                             mimeType := Some ("image/" +:+ sub) |} |}.
Proof.
  intros Hne Hchars Hnot. unfold inline_part.
  unfold image_data_uri at 2.
  rewrite (mimeType_of_image_data_uri sub payload Hne Hchars).
  destruct (cleanBase64_cases (image_data_uri sub payload))
    as [-> | (sub' & Hsub' & Heq)]; [done|].
  exfalso. apply Hnot.
  destruct (listed_subtype_chars sub' Hsub') as [_ Hchars'].
  unfold image_data_uri in Heq at 1 2. injection Heq as Heq.
  by rewrite (subtype_before_semicolon sub sub' payload _ Hchars Hchars' Heq).
Qed.

Lemma unlisted_data_uri_keeps_its_prefix_witness :
  inline_part "data:image/svg+xml;base64,PHN2Zz4="
  = {| text := None;
       inlineData := Some {| data := Some "data:image/svg+xml;base64,PHN2Zz4=";
                             mimeType := Some "image/svg+xml" |} |}.
Proof.
  apply (unlisted_data_uri_keeps_its_prefix "svg+xml" "PHN2Zz4=");
    [discriminate | reflexivity |].
  unfold listed_subtypes. intros H.
  repeat (apply elem_of_cons in H as [H|H]; [discriminate|]).
  by apply elem_of_nil in H.
Defined.

(** ** The poller beyond the two scenarios *)

Section PollerOutcomes.
Variable remote : Remote.
Implicit Types (operation final : GenerateVideosOperation) (fuel n k : nat).

(** Polling a job that reports [final] at the [k]-th status request is [k]
    delayed status requests followed by polling from [final] on. *)
Lemma poll_reports_then k : ∀ n fuel operation final,
  reports remote n k operation final →
  k ≤ fuel →
  ∃ polled,
    poll remote fuel n operation
    = (polled ++ (poll remote (fuel - k) (n + k) final).1,
       (poll remote (fuel - k) (n + k) final).2)
    ∧ Forall (λ e, is_fetch e = false) polled
    ∧ length (filter (λ e, is_status_request e = true) polled) = k
    ∧ length (filter (λ e, is_delay e = true) polled) = k.
Proof.
  induction k as [|k IH]; intros n fuel operation final Hrep Hfuel.
  - simpl in Hrep. subst final. exists []. simpl.
    rewrite Nat.sub_0_r, Nat.add_0_r. by destruct (poll remote fuel n operation).
  - destruct Hrep as (Hnot & next & Hnext & Hrep).
    destruct fuel as [|fuel]; [lia|].
    destruct (IH (S n) fuel next final Hrep) as (polled & Hp & Hf & Hs & Hd);
      [lia|].
    exists (Sleep 5000 :: GetVideosOperation operation :: polled).
    split.
    { simpl. rewrite Hnot, Hnext, Hp.
      by replace (n + S k) with (S n + k) by lia. }
    split; [by repeat constructor|]. split.
    + rewrite filter_cons_False by (simpl; discriminate).
      rewrite filter_cons_True by done. simpl. by rewrite Hs.
    + rewrite filter_cons_True by done.
      rewrite filter_cons_False by discriminate. simpl. by rewrite Hd.
Qed.

Lemma poll_never_done fuel : ∀ n operation,
  (∀ i op, ∃ op', getVideosOperation remote i op = Returned op'
                  ∧ truthy_bool (done op') = false) →
  truthy_bool (done operation) = false →
  (poll remote fuel n operation).2 = None
  ∧ Forall (λ e, is_fetch e = false) (poll remote fuel n operation).1
  ∧ length (filter (λ e, is_status_request e = true)
              (poll remote fuel n operation).1) = fuel.
Proof.
  induction fuel as [|fuel IH]; intros n operation Hall Hnot;
    cbn [poll]; rewrite Hnot; [done|].
  destruct (Hall n operation) as (op' & -> & Hnot').
  destruct (IH (S n) op' Hall Hnot') as (Hr & Hf & Hs).
  destruct (poll remote fuel (S n) op') as [events r]. cbn [fst snd] in *.
  split; [done|]. split; [by repeat constructor|].
  rewrite filter_cons_False by (simpl; discriminate).
  rewrite filter_cons_True by done. simpl. by rewrite Hs.
Qed.

End PollerOutcomes.



(** X12. When the download of a finished video answers with a status that
    is not a success, [generateVideo] throws "Failed to download generated
    video." after that one download request. *)
Theorem failed_download_throws
    (remote : Remote) (prompt : string) (inputImage : option string)
    (submitted final : GenerateVideosOperation) (link : string)
    (videoResponse : FetchResponse) (k fuel : nat) :
  generateVideos remote (video_payload prompt inputImage) = Returned submitted →
  reports remote 0 k submitted final →
  truthy_bool (done final) = true →
  downloadLink final = Some link → link ≠ EmptyString →
  fetch remote (link +:+ "&key=" +:+ env_text (API_KEY remote))
  = Returned videoResponse →
  ok videoResponse = false →
  k ≤ fuel →
  (generateVideo remote fuel prompt inputImage).2
  = Some (Thrown (new_Error "Failed to download generated video."))
  ∧ length (filter (λ e, is_fetch e = true)
              (generateVideo remote fuel prompt inputImage).1) = 1.
Proof.
  intros Hsub Hrep Hdone Hlink Hne Hfetch Hok Hfuel.
  destruct (poll_reports remote k 0 fuel submitted final Hrep Hdone Hfuel)
    as (polled & Hpoll & Hf & _).
  unfold generateVideo. rewrite Hsub, Hpoll. unfold download.
  rewrite Hlink. destruct link as [|c link]; [done|]. simpl.
  simpl in Hfetch. rewrite Hfetch, Hok. simpl. split; [done|].
  rewrite filter_cons_False by (simpl; discriminate).
  rewrite filter_app, length_app.
  rewrite filter_cons_True by done. simpl.
  assert (filter (λ e, is_fetch e = true) polled = []) as ->; [|done].
  clear -Hf. induction Hf as [|e l He _ IH]; [done|].
  by rewrite filter_cons_False by (rewrite He; discriminate).
Qed.

Lemma failed_download_throws_witness :
  let final := operation_of true (Some "https://media/v1?alt=media") in
  let remote :=
    mkRemote None (fun _ _ => Pending) [] (fun _ => Returned final)
      (fun _ _ => Pending)
      (fun _ => Returned {| ok := false; blob := Pending |})
      (fun b => bytes b) in
  generateVideo remote 0 "a cat runs" None
  = ([GenerateVideos (video_payload "a cat runs" None);
      Fetch "https://media/v1?alt=media&key=undefined"],
     Some (Thrown (new_Error "Failed to download generated video."))).
Proof.
  intros final remote.
  destruct (failed_download_throws remote "a cat runs" None final final
              "https://media/v1?alt=media"
              {| ok := false; blob := Pending |} 0 0) as [Hr _];
    [reflexivity | reflexivity | reflexivity | reflexivity | discriminate
    | reflexivity | reflexivity | lia |].
  destruct (generateVideo remote 0 "a cat runs" None) as [events r] eqn:Hrun.
  simpl in Hr. subst r. vm_compute in Hrun. by injection Hrun as <-.
Defined.

(** X13. While every status request answers with an operation that is not
    done, [generateVideo] keeps polling: after any number of rounds it has
    made that many status requests, has downloaded nothing and has not
    finished. *)
Theorem poller_never_gives_up
    (remote : Remote) (prompt : string) (inputImage : option string)
    (submitted : GenerateVideosOperation) (fuel : nat) :
  generateVideos remote (video_payload prompt inputImage) = Returned submitted →
  truthy_bool (done submitted) = false →
  (∀ i op, ∃ op', getVideosOperation remote i op = Returned op'
                  ∧ truthy_bool (done op') = false) →
  (generateVideo remote fuel prompt inputImage).2 = None
  ∧ Forall (λ e, is_fetch e = false)
      (generateVideo remote fuel prompt inputImage).1
  ∧ length (filter (λ e, is_status_request e = true)
              (generateVideo remote fuel prompt inputImage).1) = fuel.
Proof.
  intros Hsub Hnot Hall.
  destruct (poll_never_done remote fuel 0 submitted Hall Hnot) as (Hr & Hf & Hs).
  unfold generateVideo. rewrite Hsub.
  destruct (poll remote fuel 0 submitted) as [polled r].
  cbn [fst snd] in *. subst r.
  cbn [fst snd]. split; [done|]. split; [by constructor|].
  by rewrite filter_cons_False by (simpl; discriminate).
Qed.

Lemma poller_never_gives_up_witness :
  let pending := operation_of false None in
  let remote :=
    mkRemote (Some "k") (fun _ _ => Pending) [] (fun _ => Returned pending)
      (fun _ _ => Returned pending) (fun _ => Pending) (fun b => bytes b) in
  (generateVideo remote 1000 "a cat runs" None).2 = None.
Proof.
  intros pending remote.
  apply (poller_never_gives_up remote "a cat runs" None pending 1000);
    [reflexivity | reflexivity |].
  intros i op. exists pending. split; reflexivity.
Defined.

(** X14. When a status request throws, [generateVideo] throws that error:
    it polls no further and downloads nothing. *)
Theorem failed_status_request_ends_the_poll
    (remote : Remote) (prompt : string) (inputImage : option string)
    (submitted last : GenerateVideosOperation) (e : JsError) (k fuel : nat) :
  generateVideos remote (video_payload prompt inputImage) = Returned submitted →
  reports remote 0 k submitted last →
  truthy_bool (done last) = false →
  getVideosOperation remote k last = Thrown e →
  k < fuel →
  (generateVideo remote fuel prompt inputImage).2 = Some (Thrown e)
  ∧ Forall (λ e, is_fetch e = false)
      (generateVideo remote fuel prompt inputImage).1
  ∧ length (filter (λ e, is_status_request e = true)
              (generateVideo remote fuel prompt inputImage).1) = S k.
Proof.
  intros Hsub Hrep Hnot Hthrow Hfuel.
  destruct (poll_reports_then remote k 0 fuel submitted last Hrep)
    as (polled & Hpoll & Hf & Hs & _); [lia|].
  assert (Hlast : poll remote (fuel - k) (0 + k) last
                  = ([Sleep 5000; GetVideosOperation last], Some (Thrown e))).
  { destruct (fuel - k) as [|f] eqn:Hf'; [lia|]. simpl.
    by rewrite Hnot, Hthrow. }
  rewrite Hlast in Hpoll. simpl in Hpoll.
  unfold generateVideo. rewrite Hsub, Hpoll. simpl.
  split; [done|]. split.
  - constructor; [done|]. apply Forall_app. split; [done|].
    by repeat constructor.
  - rewrite filter_cons_False by (simpl; discriminate).
    rewrite filter_app, length_app, Hs.
    rewrite filter_cons_False by (simpl; discriminate).
    rewrite filter_cons_True by done. simpl. lia.
Qed.

Lemma failed_status_request_ends_the_poll_witness :
  let pending := operation_of false None in
  let lost := new_Error "503 UNAVAILABLE" in
  let remote :=
    mkRemote (Some "k") (fun _ _ => Pending) [] (fun _ => Returned pending)
      (fun i _ => if Nat.eqb i 0 then Returned pending else Thrown lost)
      (fun _ => Pending) (fun b => bytes b) in
  (generateVideo remote 5 "a cat runs" None).2 = Some (Thrown lost).
Proof.
  intros pending lost remote.
  apply (failed_status_request_ends_the_poll remote "a cat runs" None
           pending pending lost 1 5);
    [reflexivity | | reflexivity | reflexivity | lia].
  simpl. split; [reflexivity|]. eexists. split; reflexivity.
Defined.

(** ** The generation handler beyond the gate and the error signature *)

Import KeySelection Studio.

Section HandlerOutcomes.
Variable svc : Services.
Implicit Types (st : State).

Lemma handleGenerate_cases st :
  truthy_string (prompt st) = true →
  gate_blocks st = false →
  let st1 :=
    setSelectedPreviewIndex 0
      (setResultUrls [] (setError None (setIsGenerating true st))) in
  handleGenerate svc st
  = match dispatch svc st with
    | (events, Returned urls) =>
        (setIsGenerating false (setResultUrls urls st1), events)
    | (events, Thrown err) =>
        (setIsGenerating false (on_error err st1), events)
    | (events, Pending) => (st1, events)
    end.
Proof. intros Hp Hg. unfold handleGenerate. by rewrite Hp, Hg. Qed.

Lemma needsPaidKey_false st :
  needsPaidKey st = false →
  activeTab st ≠ TEXT_TO_VIDEO
  ∧ model_for (Some (Generator.resolution st)) = fast_model.
Proof.
  unfold needsPaidKey. rewrite !orb_false_iff. intros [[Htab H2] H4].
  split; [by intros Hv; rewrite Hv in Htab|].
  pose proof (select_model_model_for
                (Some (mkOptions None (Some (Generator.resolution st)) None)))
    as Hm.
  unfold select_model, isHighQuality in Hm. simpl in Hm.
  by rewrite H2, H4 in Hm.
Qed.

End HandlerOutcomes.

(** X15. In image-to-image mode without a reference image, an attempt that
    passes the gate stops with the error "At least one reference image is
    required": no call is issued, no result is shown and the paid-key flag
    is untouched. *)
Theorem image_to_image_without_reference_is_refused
    (svc : Services) (st : State) :
  activeTab st = IMAGE_TO_IMAGE →
  referenceImages st = [] →
  truthy_string (prompt st) = true →
  gate_blocks st = false →
  (handleGenerate svc st).2 = []
  ∧ error (handleGenerate svc st).1
    = Some "At least one reference image is required"
  ∧ resultUrls (handleGenerate svc st).1 = []
  ∧ isGenerating (handleGenerate svc st).1 = false
  ∧ hasPaidKey (handleGenerate svc st).1 = hasPaidKey st.
Proof.
  intros Htab Hrefs Hp Hg. rewrite (handleGenerate_cases svc st Hp Hg).
  unfold dispatch. by rewrite Htab, Hrefs.
Qed.

Lemma image_to_image_without_reference_is_refused_witness :
  let st :=
    mkState IMAGE_TO_IMAGE "a cat" false ["data:old"] 0 None "16:9" "1K" 4 []
      true in
  let run := handleGenerate (services_of (failing_stub (new_Error "503")) 0) st in
  run.2 = []
  ∧ error run.1 = Some "At least one reference image is required"
  ∧ resultUrls run.1 = [].
Proof.
  intros st run.
  destruct (image_to_image_without_reference_is_refused
              (services_of (failing_stub (new_Error "503")) 0) st)
    as (Hcalls & Herr & Hres & _); [reflexivity..|].
  split; [exact Hcalls | split; [exact Herr | exact Hres]].
Defined.

(** X16. After an attempt with a non-empty prompt the component never shows
    results beside an error, and the preview index is 0, the index of the
    first result whenever there is one. *)
Theorem attempt_shows_results_or_an_error (svc : Services) (st : State) :
  truthy_string (prompt st) = true →
  (error (handleGenerate svc st).1 = None
   ∨ resultUrls (handleGenerate svc st).1 = [])
  ∧ selectedPreviewIndex (handleGenerate svc st).1 = 0
  ∧ resultUrls (handleGenerate svc st).1
      !! selectedPreviewIndex (handleGenerate svc st).1
    = head (resultUrls (handleGenerate svc st).1).
Proof.
  intros Hp. unfold handleGenerate. rewrite Hp. simpl.
  destruct (gate_blocks st); [simpl; auto|].
  destruct (dispatch svc st) as [events [urls|err|]]; simpl.
  - split; [by left|]. split; [done|]. by destruct urls.
  - unfold on_error. destruct (is_entity_not_found err); simpl; auto.
  - auto.
Qed.

Lemma attempt_shows_results_or_an_error_witness :
  let remote := image_stub [Returned (response_with [png_part "AAAA"])] [0] in
  let st :=
    mkState TEXT_TO_IMAGE "a cat" false ["data:old"] 3 (Some "an earlier error")
      "16:9" "1K" 1 [] true in
  error (handleGenerate (services_of remote 0) st).1 = None
  ∧ selectedPreviewIndex (handleGenerate (services_of remote 0) st).1 = 0.
Proof.
  intros remote st.
  destruct (attempt_shows_results_or_an_error (services_of remote 0) st)
    as ([Herr | Hres] & Hidx & _); [reflexivity | | ].
  - split; [exact Herr | exact Hidx].
  - vm_compute in Hres. discriminate.
Defined.

(** X17. The generation handler never grants the paid key: when the flag is
    true afterwards it was true before, whatever the services do. *)
Theorem handler_never_grants_the_paid_key (svc : Services) (st : State) :
  hasPaidKey (handleGenerate svc st).1 = true → hasPaidKey st = true.
Proof.
  unfold handleGenerate.
  destruct (negb (truthy_string (prompt st))); [done|].
  destruct (gate_blocks st); [done|].
  destruct (dispatch svc st) as [events [urls|err|]]; simpl; try done.
  unfold on_error. by destruct (is_entity_not_found err).
Qed.

Lemma handler_never_grants_the_paid_key_witness :
  let remote := image_stub [Returned (response_with [png_part "AAAA"])] [0] in
  let st :=
    mkState TEXT_TO_IMAGE "a cat" false [] 0 None "16:9" "1K" 1 [] true in
  hasPaidKey st = true.
Proof.
  intros remote st.
  apply (handler_never_grants_the_paid_key (services_of remote 0) st).
  reflexivity.
Defined.

(** X18. Without the paid key the handler reaches neither the video
    service nor the high-fidelity model: every call it issues, over the
    services of [geminiService.ts], is a generation call to the fast
    model. *)
Theorem without_paid_key_only_the_fast_model_is_called
    (remote : Remote) (fuel : nat) (st : State) :
  hasPaidKey st = false →
  Forall (λ e, model_of e = Some fast_model)
    (handleGenerate (services_of remote fuel) st).2.
Proof.
  intros Hkey. unfold handleGenerate.
  destruct (negb (truthy_string (prompt st))); [by constructor|].
  unfold gate_blocks. rewrite Hkey, andb_true_r.
  destruct (needsPaidKey st) eqn:Hneeds; [by constructor|].
  apply needsPaidKey_false in Hneeds as [Hvideo Hfast].
  assert (Hev : Forall (λ e, model_of e = Some fast_model)
                  (dispatch (services_of remote fuel) st).1).
  { unfold dispatch. destruct (activeTab st); [| |done]; simpl.
    - eapply Forall_impl; [apply issued_by_text|].
      intros e ->. simpl. rewrite select_model_model_for.
      exact (f_equal Some Hfast).
    - destruct (Nat.eqb _ _); [by constructor|].
      eapply Forall_impl; [apply issued_by_image|].
      intros e ->. simpl. rewrite select_model_model_for.
      exact (f_equal Some Hfast). }
  by destruct (dispatch (services_of remote fuel) st) as [events [urls|err|]].
Qed.

Lemma without_paid_key_only_the_fast_model_is_called_witness :
  let remote := image_stub [Returned (response_with [png_part "AAAA"])] [0] in
  let st :=
    mkState TEXT_TO_IMAGE "a cat" false [] 0 None "16:9" "1K" 1 [] false in
  (handleGenerate (services_of remote 0) st).2
  = [GenerateContent (text_request "a cat" (options_of st))]
  ∧ Forall (λ e, model_of e = Some "gemini-2.5-flash-image")
      (handleGenerate (services_of remote 0) st).2.
Proof.
  intros remote st. split; [reflexivity|].
  exact (without_paid_key_only_the_fast_model_is_called remote 0 st eq_refl).
Defined.

(** X19. Through the handler and the services together: in text-to-image
    mode with a batch size of 1 to 4, when the gate is passed and every
    call returns an inline binary part, the component ends with exactly
    that many results, the i-th from the i-th call, no error, and no
    longer generating. *)
Theorem successful_batch_shows_every_result
    (remote : Remote) (fuel : nat) (st : State)
    (responses : list GenerateContentResponse) :
  activeTab st = TEXT_TO_IMAGE →
  truthy_string (prompt st) = true →
  gate_blocks st = false →
  (1 ≤ Generator.numberOfImages st ≤ 4)%Z →
  all_complete remote (Z.to_nat (Generator.numberOfImages st)) →
  all_return remote (text_request (prompt st) (options_of st))
    (Z.to_nat (Generator.numberOfImages st)) responses →
  Forall has_inline_binary responses →
  let st' := (handleGenerate (services_of remote fuel) st).1 in
  length (resultUrls st') = Z.to_nat (Generator.numberOfImages st)
  ∧ (∀ i, resultUrls st' !! i = responses !! i ≫= response_url)
  ∧ error st' = None
  ∧ isGenerating st' = false.
Proof.
  intros Htab Hp Hg Hn Hcomp Hret Himg st'. subst st'.
  rewrite (handleGenerate_cases _ st Hp Hg).
  unfold dispatch. rewrite Htab.
  cbn [services_of svc_generateImageFromText].
  assert (Hcount : count (options_of st) = Generator.numberOfImages st).
  { unfold count. simpl. destruct (Z.eqb_spec (Generator.numberOfImages st) 0);
      [lia | done]. }
  assert (Hrange : (0 ≤ count (options_of st) < 2 ^ 32)%Z)
    by (rewrite Hcount; lia).
  rewrite (generateImageFromText_fan_out remote (prompt st) (options_of st)
             Hrange).
  rewrite Hcount.
  assert (Hpos : 0 < Z.to_nat (Generator.numberOfImages st)) by lia.
  destruct (fan_out_ordered remote _ _ responses Hpos Hret Himg Hcomp)
    as (urls & Hu & Hlen & Hnth).
  destruct (fan_out remote _ _) as [events r]. simpl in Hu. subst r. done.
Qed.

Lemma successful_batch_shows_every_result_witness :
  let remote :=
    image_stub [Returned (response_with [png_part "AAAA"]);
                Returned (response_with [png_part "BBBB"])] [1; 0] in
  let st :=
    mkState TEXT_TO_IMAGE "a cat" false [] 0 None "16:9" "2K" 2 [] true in
  length (resultUrls (handleGenerate (services_of remote 0) st).1) = 2
  ∧ error (handleGenerate (services_of remote 0) st).1 = None.
Proof.
  intros remote st.
  destruct (successful_batch_shows_every_result remote 0 st
              [response_with [png_part "AAAA"]; response_with [png_part "BBBB"]])
    as (Hlen & _ & Herr & _).
  - reflexivity.
  - reflexivity.
  - reflexivity.
  - simpl. lia.
  - intros [|[|i]] Hi; simpl; [repeat constructor.. | simpl in Hi; lia].
  - split; [reflexivity|].
    intros [|[|i]] r Hr; simpl in Hr; inversion Hr; reflexivity.
  - repeat constructor; apply has_inline_binary_url; vm_compute; eauto.
  - split; [exact Hlen | exact Herr].
Defined.




(** ** The paid-key check and the key selection *)

(** The key check sets the paid-key flag to true without asking the
    host when neither video mode nor a 2K or 4K resolution is active, and
    also when the host or its capability is absent; otherwise the flag is
    the answer of the host, asked once; a check that throws leaves the
    flag as it was. *)
Theorem key_check_follows_the_host
    (aistudio : option AiStudio) (st : State) :
  (needsPaidKey st = false →
   checkKeyRequirements aistudio st = (setHasPaidKey true st, []))
  ∧ (aistudio = None
     ∨ (∃ host, aistudio = Some host ∧ hasSelectedApiKey host = None) →
     checkKeyRequirements aistudio st = (setHasPaidKey true st, []))
  ∧ (∀ host answer,
       needsPaidKey st = true → aistudio = Some host →
       hasSelectedApiKey host = Some (Returned answer) →
       checkKeyRequirements aistudio st
       = (setHasPaidKey answer st, [HasSelectedApiKey]))
  ∧ (∀ host e,
       needsPaidKey st = true → aistudio = Some host →
       hasSelectedApiKey host = Some (Thrown e) →
       checkKeyRequirements aistudio st = (st, [HasSelectedApiKey])).
Proof.
  unfold checkKeyRequirements, checkApiKeySelection. repeat split.
  - by intros ->.
  - intros [-> | (host & -> & ->)]; by destruct (needsPaidKey st).
  - by intros host answer -> -> ->.
  - by intros host e -> -> ->.
Qed.

Lemma key_check_follows_the_host_witness :
  let host := mkAiStudio (Some (Returned false)) None in
  let st :=
    mkState TEXT_TO_VIDEO "a cat runs" false [] 0 None "16:9" "1K" 1 [] true in
  hasPaidKey (checkKeyRequirements (Some host) st).1 = false
  ∧ hasPaidKey (checkKeyRequirements None st).1 = true.
Proof.
  intros host st.
  destruct (key_check_follows_the_host (Some host) st) as (_ & _ & Hask & _).
  destruct (key_check_follows_the_host None st) as (_ & Habsent & _).
  rewrite (Hask host false eq_refl eq_refl eq_refl).
  rewrite (Habsent (or_introl eq_refl)). split; reflexivity.
Defined.

(** X22. When the host answers that no key is selected while video mode or
    a 2K or 4K resolution is active, the attempt that follows the key check
    issues no call and shows no error. *)
Theorem negative_key_check_blocks_the_attempt
    (svc : Services) (host : AiStudio) (st : State) :
  needsPaidKey st = true →
  hasSelectedApiKey host = Some (Returned false) →
  let checked := (checkKeyRequirements (Some host) st).1 in
  (handleGenerate svc checked).2 = []
  ∧ (truthy_string (prompt st) = true →
     error (handleGenerate svc checked).1 = None
     ∧ isGenerating (handleGenerate svc checked).1 = false).
Proof.
  intros Hneeds Hhost checked. subst checked.
  unfold checkKeyRequirements, checkApiKeySelection.
  rewrite Hneeds, Hhost. simpl. unfold handleGenerate. simpl.
  destruct (truthy_string (prompt st)); simpl; [|done].
  unfold gate_blocks, needsPaidKey in *. simpl. rewrite Hneeds. simpl.
  done.
Qed.

Lemma negative_key_check_blocks_the_attempt_witness :
  let host := mkAiStudio (Some (Returned false)) None in
  let remote :=
    video_stub (operation_of true (Some "https://media/v1?alt=media")) [] in
  let st :=
    mkState TEXT_TO_IMAGE "a cat" false [] 0 None "16:9" "4K" 1 [] true in
  (handleGenerate (services_of remote 3)
     (checkKeyRequirements (Some host) st).1).2 = [].
Proof.
  intros host remote st.
  destruct (negative_key_check_blocks_the_attempt (services_of remote 3)
              host st) as [Hcalls _]; [reflexivity | reflexivity |].
  exact Hcalls.
Defined.

(** X23. Selecting a key is optimistic: once the host dialog returns, the
    flag is true without the host being asked whether a key was selected,
    and the next attempt is dispatched to the service. *)
Theorem key_selection_is_optimistic
    (svc : Services) (aistudio : option AiStudio) (st : State) :
  (openApiKeySelection aistudio).2 = Returned tt →
  truthy_string (prompt st) = true →
  let selected := handleSelectKey aistudio st in
  hasPaidKey selected.1 = true
  ∧ (HasSelectedApiKey ∉ selected.2)
  ∧ (handleGenerate svc selected.1).2 = (dispatch svc selected.1).1.
Proof.
  intros Hopen Hp selected. subst selected. unfold handleSelectKey.
  destruct (openApiKeySelection aistudio) as [calls r] eqn:Hcalls.
  simpl in Hopen. subst r. simpl. split; [done|]. split.
  - unfold openApiKeySelection in Hcalls.
    destruct aistudio as [host|]; [destruct (openSelectKey host)|];
      inversion Hcalls; subst; intros Hin.
    + apply elem_of_cons in Hin as [? | Hin]; [done|].
      by apply elem_of_nil in Hin.
    + by apply elem_of_nil in Hin.
    + by apply elem_of_nil in Hin.
  - unfold handleGenerate. simpl. rewrite Hp. simpl.
    unfold gate_blocks. simpl. rewrite andb_false_r.
    by destruct (dispatch svc _) as [events [urls|err|]].
Qed.

Lemma key_selection_is_optimistic_witness :
  let host := mkAiStudio (Some (Returned false)) (Some (Returned tt)) in
  let remote :=
    video_stub (operation_of true (Some "https://media/v1?alt=media")) [] in
  let st :=
    mkState TEXT_TO_VIDEO "a cat runs" false [] 0 None "16:9" "1K" 1 [] false in
  (handleGenerate (services_of remote 3) (handleSelectKey (Some host) st).1).2
  = [GenerateVideos (video_payload "a cat runs" None);
     Fetch "https://media/v1?alt=media&key=k"].
Proof.
  intros host remote st.
  destruct (key_selection_is_optimistic (services_of remote 3) (Some host) st)
    as (_ & _ & ->); reflexivity.
Defined.

(** ** The reference images of the component *)

Section References.
Implicit Types (st : State) (imgs : list string) (assetUrl : string).

Lemma includes_url_elem imgs assetUrl :
  includes_url imgs assetUrl = true ↔ assetUrl ∈ imgs.
Proof.
  unfold includes_url. rewrite existsb_exists. split.
  - intros (x & Hx & Heq). apply String.eqb_eq in Heq as ->.
    by apply list_elem_of_In.
  - intros Hin. exists assetUrl. split; [by apply list_elem_of_In|].
    apply String.eqb_refl.
Qed.

Lemma filter_other_length imgs assetUrl :
  length (List.filter (λ url, negb (String.eqb url assetUrl)) imgs)
  ≤ length imgs.
Proof.
  induction imgs as [|x imgs IH]; simpl; [done|].
  destruct (negb (String.eqb x assetUrl)); simpl; lia.
Qed.

Lemma filter_other_absent imgs assetUrl :
  assetUrl ∉ imgs →
  List.filter (λ url, negb (String.eqb url assetUrl)) imgs = imgs.
Proof.
  induction imgs as [|x imgs IH]; intros Hnot; simpl; [done|].
  apply not_elem_of_cons in Hnot as [Hne Hnot].
  destruct (String.eqb_spec x assetUrl) as [->|_]; [done|].
  simpl. by rewrite IH.
Qed.

Lemma filter_other_index_after {A : Type} (index from : nat) (l : list A) :
  index < from → filter_other_index index from l = l.
Proof.
  revert from. induction l as [|x l IH]; intros from Hlt; simpl; [done|].
  destruct (Nat.eqb_spec from index); [lia|]. f_equal. apply IH. lia.
Qed.

Lemma filter_other_index_spec {A : Type} (index from : nat) (l : list A) :
  from ≤ index →
  filter_other_index index from l
  = take (index - from) l ++ drop (S (index - from)) l.
Proof.
  revert from. induction l as [|x l IH]; intros from Hle; simpl.
  - by destruct (index - from).
  - destruct (Nat.eqb_spec from index) as [->|Hne].
    + rewrite Nat.sub_diag. simpl. rewrite drop_0.
      apply filter_other_index_after. lia.
    + rewrite IH by lia.
      replace (index - from) with (S (index - S from)) by lia. done.
Qed.

End References.

(** X24. The reference images never exceed five through the scene-asset
    selector or through removal, and in video mode a click on a scene asset
    never takes them beyond one. *)
Theorem reference_images_stay_within_the_limit
    (assetUrl : string) (index : nat) (st : State) :
  (length (referenceImages st) ≤ 5 →
   length (referenceImages (toggleSceneAsset assetUrl st)) ≤ 5
   ∧ length (referenceImages (click_scene_asset assetUrl st)) ≤ 5
   ∧ length (referenceImages (removeReferenceImage index st)) ≤ 5)
  ∧ (activeTab st = TEXT_TO_VIDEO → length (referenceImages st) ≤ 1 →
     length (referenceImages (click_scene_asset assetUrl st)) ≤ 1).
Proof.
  assert (Htoggle : ∀ n, 1 ≤ n ≤ 5 → length (referenceImages st) ≤ n →
            (includes_url (referenceImages st) assetUrl = false →
             length (referenceImages st) < n ∨ n = 5) →
            length (referenceImages (toggleSceneAsset assetUrl st)) ≤ n).
  { intros n Hn Hlen Hroom. unfold toggleSceneAsset.
    destruct (includes_url (referenceImages st) assetUrl) eqn:Hin.
    - cbn [referenceImages setReferenceImages].
      pose proof (filter_other_length (referenceImages st) assetUrl). lia.
    - destruct (Nat.leb_spec 5 (length (referenceImages st))); [done|].
      cbn [referenceImages setReferenceImages].
      rewrite length_app. simpl. destruct (Hroom eq_refl); lia. }
  split.
  - intros Hlen. split; [apply Htoggle; auto; lia|]. split.
    + unfold click_scene_asset.
      destruct (negb _ && _); [done | apply Htoggle; auto; lia].
    + unfold removeReferenceImage. cbn [referenceImages setReferenceImages].
      rewrite filter_other_index_spec by lia.
      rewrite length_app, length_take, length_drop. lia.
  - intros Htab Hlen. unfold click_scene_asset. rewrite Htab.
    cbn [GenerationType_eqb].
    destruct (includes_url (referenceImages st) assetUrl) eqn:Hin;
      cbn [negb andb].
    + apply Htoggle; [lia | done | congruence].
    + destruct (Nat.leb_spec 1 (length (referenceImages st))); [done|].
      apply Htoggle; [lia | done | intros _; lia].
Qed.

Lemma reference_images_stay_within_the_limit_witness :
  let st :=
    mkState IMAGE_TO_IMAGE "a cat" false [] 0 None "16:9" "1K" 1
      ["a"; "b"; "c"; "d"; "e"] true in
  referenceImages (toggleSceneAsset "f" st) = ["a"; "b"; "c"; "d"; "e"]
  ∧ length (referenceImages (toggleSceneAsset "f" st)) ≤ 5.
Proof.
  intros st. split; [reflexivity|].
  destruct (reference_images_stay_within_the_limit "f" 0 st) as [Hfive _].
  apply Hfive. simpl. lia.
Defined.

(** X25. Selecting a scene asset that is not among the reference images,
    while there is room, appends it, and selecting it again restores the
    reference images as they were. *)
Theorem toggling_a_scene_asset_twice_restores
    (assetUrl : string) (st : State) :
  assetUrl ∉ referenceImages st →
  length (referenceImages st) < 5 →
  referenceImages (toggleSceneAsset assetUrl st)
  = referenceImages st ++ [assetUrl]
  ∧ toggleSceneAsset assetUrl (toggleSceneAsset assetUrl st) = st.
Proof.
  intros Hnot Hlen.
  assert (Hin : includes_url (referenceImages st) assetUrl = false).
  { destruct (includes_url _ _) eqn:H; [|done].
    by apply includes_url_elem in H. }
  assert (Hfirst : toggleSceneAsset assetUrl st
                   = setReferenceImages (referenceImages st ++ [assetUrl]) st).
  { unfold toggleSceneAsset. rewrite Hin.
    by destruct (Nat.leb_spec 5 (length (referenceImages st))); [lia|]. }
  rewrite Hfirst. split; [done|].
  unfold toggleSceneAsset. simpl.
  rewrite (proj2 (includes_url_elem (referenceImages st ++ [assetUrl]) assetUrl))
    by (apply elem_of_app; right; by constructor).
  rewrite List.filter_app, (filter_other_absent _ _ Hnot). simpl.
  rewrite String.eqb_refl. simpl. rewrite app_nil_r. by destruct st.
Qed.

Lemma toggling_a_scene_asset_twice_restores_witness :
  let st :=
    mkState IMAGE_TO_IMAGE "a cat" false [] 0 None "16:9" "1K" 1 ["a"; "b"]
      true in
  toggleSceneAsset "c" (toggleSceneAsset "c" st) = st.
Proof.
  intros st.
  apply (toggling_a_scene_asset_twice_restores "c" st); [|simpl; lia].
  intros Hin. repeat (apply elem_of_cons in Hin as [Hin|Hin]; [discriminate|]).
  by apply elem_of_nil in Hin.
Defined.

(** X26. Removing the reference image at an index removes that image alone
    and keeps the others in order; an index beyond the list removes
    nothing. *)
Theorem removing_a_reference_image_keeps_the_others
    (index : nat) (st : State) :
  referenceImages (removeReferenceImage index st)
  = take index (referenceImages st) ++ drop (S index) (referenceImages st)
  ∧ (length (referenceImages st) ≤ index →
     referenceImages (removeReferenceImage index st) = referenceImages st)
  ∧ (index < length (referenceImages st) →
     length (referenceImages (removeReferenceImage index st))
     = length (referenceImages st) - 1).
Proof.
  unfold removeReferenceImage. simpl.
  rewrite filter_other_index_spec by lia. rewrite Nat.sub_0_r.
  split; [done|]. split.
  - intros Hle. by rewrite take_ge, drop_ge, app_nil_r by lia.
  - intros Hlt. rewrite length_app, length_take, length_drop. lia.
Qed.

Lemma removing_a_reference_image_keeps_the_others_witness :
  let st :=
    mkState IMAGE_TO_IMAGE "a cat" false [] 0 None "16:9" "1K" 1
      ["a"; "b"; "a"; "c"] true in
  referenceImages (removeReferenceImage 2 st) = ["a"; "b"; "c"]
  ∧ length (referenceImages (removeReferenceImage 2 st)) = 3.
Proof.
  intros st.
  destruct (removing_a_reference_image_keeps_the_others 2 st)
    as (Heq & _ & Hlen).
  split; [by rewrite Heq | apply Hlen; simpl; lia].
Defined.

(** ** The prompt enhancer of the component *)

Section Enhance.
Variable remote : Remote.
Implicit Types (c : Component).

Lemma enhancePrompt_nonempty originalPrompt type improved :
  originalPrompt ≠ EmptyString →
  (enhancePrompt remote originalPrompt type).2 = Returned improved →
  improved ≠ EmptyString.
Proof.
  intros Hne. unfold enhancePrompt. simpl.
  destruct (generateContent remote 0 _) as [r|e|]; [|done..].
  intros [= <-]. destruct (response_text r) as [t|]; simpl; [|done].
  by destruct (trim t).
Qed.

End Enhance.

(** X27. Enhancing a non-empty prompt issues one text-generation call, in
    the video wording exactly in video mode, and never leaves the prompt
    empty; when the call throws, the prompt and the displayed error are as
    before and the component is no longer enhancing. An empty prompt
    issues no call. *)
Theorem enhancing_never_empties_the_prompt (remote : Remote) (c : Component) :
  let run := handleEnhancePrompt (enhancePrompt remote) c in
  let st := generation c in
  let type :=
    if GenerationType_eqb (activeTab st) TEXT_TO_VIDEO then video_type
    else image_type in
  (prompt st = EmptyString → run = (c, []))
  ∧ (prompt st ≠ EmptyString →
     run.2 = [GenerateContent (enhance_request (prompt st) (Some type))]
     ∧ prompt (generation run.1) ≠ EmptyString
     ∧ ∀ e, generateContent remote 0 (enhance_request (prompt st) (Some type))
            = Thrown e →
            generation run.1 = st ∧ isEnhancing run.1 = false).
Proof.
  intros run st type. subst run st type. unfold handleEnhancePrompt.
  split; [by intros ->|]. intros Hne.
  destruct (prompt (generation c)) as [|ch p] eqn:Hp; [done|]. simpl.
  pose proof (enhancePrompt_nonempty remote (String ch p)
                (Some (if GenerationType_eqb (activeTab (generation c))
                            TEXT_TO_VIDEO
                       then video_type else image_type))) as Hnonempty.
  unfold enhancePrompt in *. simpl in *.
  destruct (generateContent remote 0 _) as [r|e|]; simpl.
  - split; [done|]. split; [by eapply Hnonempty | done].
  - split; [done|]. rewrite Hp. split; [done|]. by intros e' _.
  - split; [done|]. rewrite Hp. done.
Qed.

Lemma enhancing_never_empties_the_prompt_witness :
  let remote := image_stub [Returned (text_response (Some "  "))] [0] in
  let st :=
    mkState TEXT_TO_VIDEO "a cat runs" false [] 0 None "16:9" "1K" 1 [] true in
  let c := mkComponent st false false "p1" "s1" in
  prompt (generation (handleEnhancePrompt (enhancePrompt remote) c).1)
  ≠ EmptyString.
Proof.
  intros remote st c.
  destruct (enhancing_never_empties_the_prompt remote c) as [_ Hrun].
  destruct Hrun as (_ & Hne & _); [discriminate | exact Hne].
Defined.

(** ** The asset store *)

Section Store.
Implicit Types (a : App.AppState) (l : list App.Scene).

Lemma scenes_of_app projectId l l' :
  App.scenes_of projectId (l ++ l')
  = App.scenes_of projectId l ++ App.scenes_of projectId l'.
Proof. apply List.filter_app. Qed.

Lemma well_numbered_snoc l (s : App.Scene) :
  well_numbered l →
  App.sequenceOrder s
  = (Z.of_nat (length (App.scenes_of (App.scene_projectId s) l)) + 1)%Z →
  well_numbered (l ++ [s]).
Proof.
  intros Hl Hs projectId. rewrite scenes_of_app. simpl.
  destruct (String.eqb_spec (App.scene_projectId s) projectId) as [<-|Hne].
  - rewrite fmap_app, length_app, Hl. simpl.
    rewrite Nat.add_1_r, seq_S, fmap_app. simpl. by rewrite Hs.
  - rewrite app_nil_r. apply Hl.
Qed.

Lemma imap_asset_url (f : nat → string → App.Asset) (urls : list string) :
  (∀ i url, App.asset_url (f i url) = url) →
  App.asset_url <$> imap f urls = urls.
Proof.
  revert f. induction urls as [|u urls IH]; intros f Hf; simpl; [done|].
  rewrite Hf. f_equal. apply IH. intros i url. apply Hf.
Qed.

Lemma save_each_assets stamp n saved a :
  App.assets (App.data (App.save_each stamp n saved a))
  = App.assets (App.data a)
    ++ imap (λ i d, asset_of (stamp (n + i)).1 (stamp (n + i)).2 d) saved
  ∧ App.projects (App.data (App.save_each stamp n saved a))
    = App.projects (App.data a)
  ∧ App.scenes (App.data (App.save_each stamp n saved a))
    = App.scenes (App.data a).
Proof.
  revert n a. induction saved as [|d saved IH]; intros n a.
  - simpl. by rewrite app_nil_r.
  - cbn [App.save_each].
    destruct (IH (S n) (App.saveGeneratedAsset (stamp n).1 (stamp n).2 d a))
      as (Ha & Hp & Hs).
    rewrite Ha, Hp, Hs. split; [|done].
    cbn [App.saveGeneratedAsset App.setData App.data App.assets imap].
    rewrite <- app_assoc, Nat.add_0_r. f_equal. simpl. f_equal.
    apply imap_ext. intros i x _. simpl.
    by replace (n + S i) with (S (n + i)) by lia.
Qed.

End Store.

(** X28. Creating scenes keeps the scenes of every project numbered 1, 2,
    3, ... in the order of creation: a new scene takes the next number of
    its own project, and a name of white space only creates nothing. *)
Theorem created_scenes_are_numbered_in_order
    (id : string) (a : App.AppState) :
  well_numbered (App.scenes (App.data a)) →
  well_numbered (App.scenes (App.data (App.handleCreateScene id a)))
  ∧ (Js.trim (App.newItemName a) = EmptyString →
     App.handleCreateScene id a = a)
  ∧ (∀ projectId,
       Js.trim (App.newItemName a) ≠ EmptyString →
       App.viewState a = App.PROJECT_DETAILS projectId →
       App.scenes_of projectId
         (App.scenes (App.data (App.handleCreateScene id a)))
       = App.scenes_of projectId (App.scenes (App.data a))
         ++ [ {| App.scene_id := id;
                 App.scene_projectId := projectId;
                 App.scene_name := App.newItemName a;
                 App.scene_description := "Description of the scene...";
                 App.sequenceOrder :=
                   (Z.of_nat (length (App.scenes_of projectId
                                        (App.scenes (App.data a)))) + 1)%Z |} ]).
Proof.
  intros Hwell. unfold App.handleCreateScene. split; [|split].
  - destruct (negb _); [done|].
    destruct (App.viewState a); try done. simpl.
    by apply well_numbered_snoc.
  - by intros ->.
  - intros projectId Hne ->.
    destruct (Js.trim (App.newItemName a)); [done|]. simpl.
    rewrite scenes_of_app. simpl. by rewrite String.eqb_refl.
Qed.

Lemma created_scenes_are_numbered_in_order_witness :
  let a0 :=
    App.mkApp (App.mkData [] [] []) (App.PROJECT_DETAILS "p1") false true
      "Opening" None in
  let a1 := App.handleCreateScene "s1" a0 in
  let a2 := App.handleCreateScene "s2" a1 in
  App.sequenceOrder <$> App.scenes (App.data a2) = [1%Z; 2%Z]
  ∧ well_numbered (App.scenes (App.data a2)).
Proof.
  intros a0 a1 a2. split; [reflexivity|].
  destruct (created_scenes_are_numbered_in_order "s2" a1) as [Hwell _];
    [|exact Hwell].
  destruct (created_scenes_are_numbered_in_order "s1" a0) as [Hwell _];
    [|exact Hwell].
  intros projectId. reflexivity.
Defined.

(** X29. Saving all results stores one asset per result URL at the end of
    the asset list, in the order of the results, each in the selected
    project and scene, with the prompt and the kind of the active mode;
    projects and scenes are untouched, and the results and the prompt of
    the component are cleared. Without results, project or scene nothing
    is saved. *)
Theorem saving_all_appends_the_results_in_order
    (stamp : nat → string * Z) (c : Component) (a : App.AppState) :
  let saved := (handleSaveAll c).2 in
  let a' := App.save_each stamp 0 saved a in
  (resultUrls (generation c) = [] ∨ selectedProjectId c = EmptyString
   ∨ selectedSceneId c = EmptyString → handleSaveAll c = (c, []))
  ∧ (resultUrls (generation c) ≠ [] → selectedProjectId c ≠ EmptyString →
     selectedSceneId c ≠ EmptyString →
     App.asset_url <$> App.assets (App.data a')
     = (App.asset_url <$> App.assets (App.data a))
       ++ resultUrls (generation c)
     ∧ App.assets (App.data a')
       = App.assets (App.data a)
         ++ imap (λ i url,
                    App.mkAsset (stamp i).1 (selectedSceneId c)
                      (selectedProjectId c)
                      (asset_type_of (activeTab (generation c))) url
                      (prompt (generation c)) (stamp i).2)
              (resultUrls (generation c))
     ∧ App.projects (App.data a') = App.projects (App.data a)
     ∧ App.scenes (App.data a') = App.scenes (App.data a)
     ∧ resultUrls (generation (handleSaveAll c).1) = []
     ∧ prompt (generation (handleSaveAll c).1) = EmptyString).
Proof.
  intros saved a'. subst saved a'. unfold handleSaveAll. split.
  - intros [-> | [-> | ->]]; simpl; [done | |].
    + by rewrite orb_true_r.
    + by rewrite orb_true_r.
  - intros Hres Hproj Hscene.
    destruct (resultUrls (generation c)) as [|u urls] eqn:Hu; [done|].
    destruct (selectedProjectId c) as [|c1 p] eqn:Hp; [done|].
    destruct (selectedSceneId c) as [|c2 s] eqn:Hs; [done|].
    cbn [length Nat.eqb truthy_string negb orb fst snd].
    destruct (save_each_assets stamp 0
                ((λ url, mkAssetData (String c1 p) (String c2 s)
                           (asset_type_of (activeTab (generation c))) url
                           (prompt (generation c))) <$> (u :: urls)) a)
      as (Hassets & Hprojects & Hscenes).
    rewrite Hassets, Hprojects, Hscenes.
    rewrite imap_fmap.
    assert (Heq : imap (λ n, (λ d, asset_of (stamp (0 + n)).1
                                     (stamp (0 + n)).2 d)
                             ∘ (λ url, mkAssetData (String c1 p) (String c2 s)
                                         (asset_type_of
                                            (activeTab (generation c)))
                                         url (prompt (generation c))))
                    (u :: urls)
                  = imap (λ i url,
                            App.mkAsset (stamp i).1 (String c2 s) (String c1 p)
                              (asset_type_of (activeTab (generation c))) url
                              (prompt (generation c)) (stamp i).2)
                      (u :: urls))
      by (apply imap_ext; intros; reflexivity).
    rewrite Heq.
    split; [by rewrite fmap_app, imap_asset_url|].
    split; [done|]. done.
Qed.

Lemma saving_all_appends_the_results_in_order_witness :
  let st :=
    mkState TEXT_TO_IMAGE "a cat" false ["data:1"; "data:2"] 0 None "16:9"
      "1K" 2 [] true in
  let c := mkComponent st false false "p1" "s1" in
  let a :=
    App.mkApp (App.mkData [] [] []) App.DASHBOARD false false "" None in
  App.asset_url
    <$> App.assets (App.data (App.save_each (λ i, ("id", 0%Z)) 0
                                (handleSaveAll c).2 a))
  = ["data:1"; "data:2"].
Proof.
  intros st c a.
  destruct (saving_all_appends_the_results_in_order (λ i, ("id", 0%Z)) c a)
    as [_ Hsaved].
  destruct Hsaved as (Hurls & _); [discriminate..|].
  exact Hurls.
Defined.

(** X30. Deleting an asset, once confirmed, removes every asset with that
    identifier and no other, and closes the lightbox when it shows that
    asset; an unconfirmed deletion changes nothing; and deleting an asset
    saved under a fresh identifier restores the asset list. *)
Theorem deleting_removes_that_asset_alone
    (assetId : string) (now : Z) (d : AssetData) (a : App.AppState) :
  App.handleDeleteAsset false assetId a = a
  ∧ (∀ x, x ∈ App.assets (App.data (App.handleDeleteAsset true assetId a))
          ↔ x ∈ App.assets (App.data a) ∧ App.asset_id x ≠ assetId)
  ∧ (∀ s, App.selectedAsset a = Some s → App.asset_id s = assetId →
          App.selectedAsset (App.handleDeleteAsset true assetId a) = None)
  ∧ ((∀ x, x ∈ App.assets (App.data a) → App.asset_id x ≠ assetId) →
     App.assets
       (App.data (App.handleDeleteAsset true assetId
                    (App.saveGeneratedAsset assetId now d a)))
     = App.assets (App.data a)).
Proof.
  split; [done|].
  assert (Hassets : ∀ b,
            App.assets (App.data (App.handleDeleteAsset true assetId b))
            = List.filter (λ x, negb (String.eqb (App.asset_id x) assetId))
                (App.assets (App.data b))).
  { intros b. unfold App.handleDeleteAsset. simpl.
    destruct (App.selectedAsset b) as [s|]; [|done].
    by destruct (String.eqb (App.asset_id s) assetId). }
  split; [|split].
  - intros x. rewrite Hassets, list_elem_of_In, List.filter_In.
    rewrite <- list_elem_of_In, negb_true_iff.
    destruct (String.eqb_spec (App.asset_id x) assetId); split;
      intros [? ?]; (split; [done|]); congruence.
  - intros s Hs Hid. unfold App.handleDeleteAsset. simpl. rewrite Hs.
    by rewrite (proj2 (String.eqb_eq _ _) Hid).
  - intros Hfresh. rewrite Hassets. simpl.
    rewrite List.filter_app. simpl. rewrite String.eqb_refl. simpl.
    rewrite app_nil_r.
    induction (App.assets (App.data a)) as [|x l IH]; simpl; [done|].
    destruct (String.eqb_spec (App.asset_id x) assetId) as [Heq|_].
    + exfalso. apply (Hfresh x); [by left | done].
    + simpl. f_equal. apply IH. intros y Hy. apply Hfresh. by right.
Qed.

Lemma deleting_removes_that_asset_alone_witness :
  let kept := App.mkAsset "a1" "s1" "p1" image_asset "data:1" "a cat" 1 in
  let a :=
    App.mkApp (App.mkData [] [] [kept]) App.DASHBOARD false false "" None in
  let d := mkAssetData "p1" "s1" video_asset "blob:2" "a cat runs" in
  App.assets
    (App.data (App.handleDeleteAsset true "a2"
                 (App.saveGeneratedAsset "a2" 2 d a)))
  = [kept].
Proof.
  intros kept a d.
  destruct (deleting_removes_that_asset_alone "a2" 2 d a)
    as (_ & _ & _ & Hround).
  apply Hround. intros x Hx. simpl in Hx.
  apply elem_of_cons in Hx as [-> | Hx]; [discriminate|].
  by apply elem_of_nil in Hx.
Defined.

(** ** From the lightbox to the video service *)


